(** * Lexical-chain relevance ranking and the streaming search pipeline

    A shallow embedding of [web/app.py]: the [LexicalChainAnalyzer]
    (chain construction and relevance scoring), [GoogleSearcher.search_google]
    (the per-source candidate filter) and the [search.generate] generator
    (source resolution, retrieval loop, scoring, sorting and the streamed
    events), together with the properties the design document states
    about them.

    Conventions.
    - A Python [str] is a [string]; a character is a code point below 256.
    - A Python [int] that only counts is a [nat] (Python integers are
      unbounded, so there is no wrap-around to write out).
    - A [dict] looked up by key only is a [gmap string _]; a [dict] whose
      iteration order reaches the output ([connected_terms], the catalog)
      is an association list in insertion order.
    - The spaCy pipeline, the file system, [json.loads], the HTTP provider
      and [DataFrame.sort_values] are collaborators outside the program:
      they are Section variables, and what a theorem needs from them is an
      explicit hypothesis. *)

From Stdlib Require Import Ascii.
From stdpp Require Import base strings gmap list sorting pretty.

(** ** Python built-ins on [str] *)

Module Py.

Definition ord (c : ascii) : nat := nat_of_ascii c.

(** [str.isspace] on one character: TAB..CR, FS..US, space, NEL, NBSP. *)
Definition isspace (c : ascii) : bool :=
  let n := ord c in
  ((9 <=? n) && (n <=? 13)) || ((28 <=? n) && (n <=? 32))
  || (n =? 133) || (n =? 160).

(** [str.isdigit] on one character: 0..9 and the superscripts 1, 2, 3. *)
Definition isdigit_char (c : ascii) : bool :=
  let n := ord c in
  ((48 <=? n) && (n <=? 57)) || (n =? 178) || (n =? 179) || (n =? 185).

(** [str.lower] on one character: A..Z and the Latin-1 capitals. *)
Definition lower_char (c : ascii) : ascii :=
  let n := ord c in
  if ((65 <=? n) && (n <=? 90))
     || ((192 <=? n) && (n <=? 222) && negb (n =? 215))
  then ascii_of_nat (n + 32) else c.

Fixpoint lower (s : string) : string :=
  match s with
  | EmptyString => EmptyString
  | String c s' => String (lower_char c) (lower s')
  end.

Fixpoint lstrip (s : string) : string :=
  match s with
  | EmptyString => EmptyString
  | String c s' => if isspace c then lstrip s' else s
  end.

Definition rstrip (s : string) : string :=
  String.rev (lstrip (String.rev s)).

Definition strip (s : string) : string := rstrip (lstrip s).

Fixpoint all_digits (s : string) : bool :=
  match s with
  | EmptyString => true
  | String c s' => isdigit_char c && all_digits s'
  end.

(** [str.isdigit]: false on the empty string. *)
Definition isdigit (s : string) : bool :=
  match s with
  | EmptyString => false
  | _ => all_digits s
  end.

(** [s.startswith(p)] *)
Fixpoint startswith (s p : string) {struct p} : bool :=
  match p, s with
  | EmptyString, _ => true
  | String a p', String b s' => bool_decide (a = b) && startswith s' p'
  | String _ _, EmptyString => false
  end.

(** [s.endswith(p)] *)
Definition endswith (s p : string) : bool :=
  startswith (String.rev s) (String.rev p).

(** Truth value of a [str]: [bool(s)]. *)
Definition nonempty (s : string) : bool :=
  match s with EmptyString => false | _ => true end.

End Py.

(** ** JSON scalars as Python values *)

Inductive pyval : Type :=
  | PNone
  | PBool (b : bool)
  | PInt (z : Z)
  | PStr (s : string).

Global Instance pyval_eq_dec : EqDecision pyval.
Proof. solve_decision. Defined.

(** [bool(v)] *)
Definition truthy (v : pyval) : bool :=
  match v with
  | PNone => false
  | PBool b => b
  | PInt z => negb (z =? 0)%Z
  | PStr s => Py.nonempty s
  end.

(** [str(v)], as an f-string formats it. *)
Definition py_str (v : pyval) : string :=
  match v with
  | PNone => "None"
  | PBool true => "True"
  | PBool false => "False"
  | PInt z => pretty z
  | PStr s => s
  end.

(** A source descriptor is a JSON object: a [dict] from keys to scalars. *)
Abbreviation journal_t := (gmap string pyval).

(** [not d.get(k)]: the key is missing or its value is falsy. *)
Definition get_falsy (d : journal_t) (k : string) : bool :=
  match d !! k with
  | Some v => negb (truthy v)
  | None => true
  end.

(** [d.get(k, dflt)] *)
Definition get_default (d : journal_t) (k : string) (dflt : pyval) : pyval :=
  default dflt (d !! k).

(** [d.setdefault(k, dflt)]: writes only when the key is missing. *)
Definition setdefault (k : string) (dflt : pyval) (d : journal_t) : journal_t :=
  match d !! k with
  | Some _ => d
  | None => <[k := dflt]> d
  end.

(** ** LexicalChainAnalyzer *)

(** [term_details[t]]: ['count'] and the ['connected_terms'] counter, a
    [defaultdict(int)] kept in insertion order. *)
Record term_detail : Type := TermDetail {
  count : nat;
  connected_terms : list (string * nat)
}.

Record analyzer : Type := Analyzer {
  lexical_chains : gmap string (list string);
  term_frequencies : gmap string nat;
  term_details : gmap string term_detail
}.

(** [LexicalChainAnalyzer.__init__] *)
Definition new_analyzer : analyzer :=
  {| lexical_chains := ∅; term_frequencies := ∅; term_details := ∅ |}.

(** [connected_terms[next_term] += 1] on an insertion-ordered counter. *)
Fixpoint counter_incr (k : string) (d : list (string * nat)) : list (string * nat) :=
  match d with
  | [] => [(k, 1)]
  | (k', n) :: d' =>
      if decide (k' = k) then (k', S n) :: d' else (k', n) :: counter_incr k d'
  end.

(** The body of the loop of [build_chains] for one adjacent pair. *)
Definition add_link (current_term next_term : string) (a : analyzer) : analyzer :=
  let chains :=
    <[current_term := default [] (lexical_chains a !! current_term) ++ [next_term]]>
      (lexical_chains a) in
  let freqs :=
    <[current_term := S (default 0 (term_frequencies a !! current_term))]>
      (term_frequencies a) in
  let fresh := {| count := 0; connected_terms := [] |} in
  let d := default fresh (term_details a !! current_term) in
  let details :=
    <[current_term := {| count := S (count d);
                         connected_terms := counter_incr next_term (connected_terms d) |}]>
      (term_details a) in
  {| lexical_chains := chains; term_frequencies := freqs; term_details := details |}.

(** One iteration [i] of [for i in range(len(all_terms) - 1)]. *)
Definition build_step (all_terms : list string) (a : analyzer) (i : nat) : analyzer :=
  match all_terms !! i, all_terms !! S i with
  | Some current_term, Some next_term => add_link current_term next_term a
  | _, _ => a
  end.

(** The chain loop over the whole term stream. *)
Definition chain_terms (all_terms : list string) (a : analyzer) : analyzer :=
  foldl (build_step all_terms) a (seq 0 (length all_terms - 1)).

(** The same loop by recursion on the stream, used in the proofs. *)
Fixpoint chain_pairs (all_terms : list string) (a : analyzer) : analyzer :=
  match all_terms with
  | current_term :: ((next_term :: _) as rest) =>
      chain_pairs rest (add_link current_term next_term a)
  | _ => a
  end.

(** One entry of [term_analysis]. *)
Record term_entry : Type := TermEntry {
  te_term : string;
  te_score : nat;
  te_connected : list (string * nat)
}.

Section Analyzer.

(** [process_text]: the spaCy pipeline, text to lemmas. *)
Variable process_text : string → list string.

(** [for snippet in snippets: snippet_terms.extend(process_text(snippet))] *)
Definition snippet_terms_of (snippets : list string) : list string :=
  foldl (λ acc snippet, acc ++ process_text snippet) [] snippets.

(** [build_chains(query, snippets)]: the analyzer after the call and the
    returned [query_terms]. *)
Definition build_chains (query : string) (snippets : list string)
    (a : analyzer) : analyzer * list string :=
  let query_terms := process_text query in
  let all_terms := query_terms ++ snippet_terms_of snippets in
  (chain_terms all_terms a, query_terms).

(** The inner loop of [calculate_relevance] over
    [connected_terms.items()]: state is [(connected, relevance_score)]. *)
Definition connected_step (snippet_terms : list string)
    (st : list (string * nat) * nat) (item : string * nat)
    : list (string * nat) * nat :=
  if bool_decide (item.1 ∈ snippet_terms)
  then (st.1 ++ [item], S st.2)
  else st.

(** The outer loop body: state is [(relevance_score, term_analysis)]. *)
Definition relevance_step (a : analyzer) (snippet_terms : list string)
    (st : nat * list term_entry) (term : string) : nat * list term_entry :=
  if bool_decide (term ∈ snippet_terms) then
    let term_score := default 0 (term_frequencies a !! term) in
    let items := from_option connected_terms [] (term_details a !! term) in
    let '(connected, relevance_score) :=
      foldl (connected_step snippet_terms) ([], st.1 + term_score) items in
    (relevance_score,
     st.2 ++ [{| te_term := term; te_score := term_score; te_connected := connected |}])
  else st.

(** [calculate_relevance(query_terms, snippet)]: ['score'] and
    ['term_analysis']. *)
Definition calculate_relevance (a : analyzer) (query_terms : list string)
    (snippet : string) : nat * list term_entry :=
  foldl (relevance_step a (process_text snippet)) (0, []) query_terms.

End Analyzer.

(** ** GoogleSearcher *)

(** One entry of the provider's ["organic_results"]; a field is [None]
    when the key is missing, and [result.get(key, '')] reads it. *)
Record organic : Type := Organic {
  o_title : option string;
  o_link : option string;
  o_snippet : option string
}.

(** What [requests.get(...)] followed by [raise_for_status()] and
    [response.json()] comes to: an exception, or the decoded object with
    its ["organic_results"] when it has that key. *)
Inductive response : Type :=
  | RespError
  | RespJson (organic_results : option (list organic)).

(** A candidate record, the [article] dict of [search_google]. *)
Record article : Type := Article {
  judul : string;
  link : string;
  snippet : string;
  jurnal : pyval;
  peringkat_sinta : pyval;
  website_jurnal : pyval
}.

(** [f"{query} site:{journal_info['link']} filetype:pdf"] *)
Definition search_query (query : string) (site : pyval) : string :=
  query +:+ " site:" +:+ py_str site +:+ " filetype:pdf".

(** [for result in results["organic_results"]]: [None] is the [KeyError]
    of [journal_info['nama_jurnal']], raised inside the [try]. *)
Fixpoint collect_articles (journal_info : journal_t) (site : pyval)
    (results : list organic) (articles : list article) : option (list article) :=
  match results with
  | [] => Some articles
  | result :: rest =>
      let link := default "" (o_link result) in
      if negb (Py.endswith (Py.lower link) ".pdf")
      then collect_articles journal_info site rest articles
      else
        match journal_info !! "nama_jurnal" with
        | None => None
        | Some nama =>
            let article :=
              {| judul := default "" (o_title result);
                 link := link;
                 snippet := default "" (o_snippet result);
                 jurnal := nama;
                 peringkat_sinta := get_default journal_info "sinta_rank" (PStr "");
                 website_jurnal := site |} in
            collect_articles journal_info site rest (articles ++ [article])
        end
  end.

(** ** The streamed events and the session *)

Record scored : Type := Scored {
  result : article;
  relevance_score : nat;
  lexical_analysis : list term_entry
}.

Inductive event : Type :=
  (** ["data: ERROR: Tidak ada file JSON daftar jurnal ditemukan."] *)
  | EvNoCatalog
  (** ["data: ERROR: format sources_json tidak valid"] *)
  | EvBadSources
  (** [f"data: Mencari di {nama} ({rank})..."] *)
  | EvProgress (nama rank : pyval)
  (** [f"data: {json.dumps(articles)}"] *)
  | EvBatch (articles : list scored)
  (** ["data: DONE"] *)
  | EvDone.

(** What the generator does, in order: a [yield], a call of
    [searcher.search_google(topic, journal)], a [time.sleep(1)]. *)
Inductive action : Type :=
  | Yield (e : event)
  | Search (topic : string) (journal : journal_t)
  | Sleep.

Record session : Type := Session {
  all_results : list article;
  snippets : list string;
  trace : list action
}.

Definition empty_session : session :=
  {| all_results := []; snippets := []; trace := [] |}.

Definition emit (x : action) (s : session) : session :=
  {| all_results := all_results s; snippets := snippets s; trace := trace s ++ [x] |}.

(** [all_results.extend(results)] and
    [snippets.extend([r.get('snippet', '') for r in results])]. *)
Definition extend_results (results : list article) (s : session) : session :=
  {| all_results := all_results s ++ results;
     snippets := snippets s ++ map snippet results;
     trace := trace s |}.

(** How a retrieval loop ends: it runs to its end, or an exception that
    nothing catches ends the generator where it stands. *)
Inductive outcome : Type :=
  | Completed (s : session)
  | Aborted (s : session).

Definition session_of (o : outcome) : session :=
  match o with Completed s | Aborted s => s end.

(** The three [setdefault] lines of the explicit branch. *)
Definition ensure_keys (journal : journal_t) : journal_t :=
  let journal :=
    setdefault "nama_jurnal" (get_default journal "link" (PStr "Tidak ada nama")) journal in
  let journal := setdefault "link" (get_default journal "link" (PStr "")) journal in
  setdefault "sinta_rank" (get_default journal "sinta_rank" (PStr "SELECTED")) journal.

(** [group_matches(selected_rank, group_key)] *)
Definition group_matches (selected_rank : option string) (group_key : string) : bool :=
  if negb (from_option Py.nonempty false selected_rank) then
    Py.startswith group_key "SINTA_" || bool_decide (group_key = "NON_SINTA")
  else
    let sr := Py.lower (Py.strip (default "" selected_rank)) in
    if bool_decide (sr ∈ ["non"; "nonsinta"; "non_sinta"; "non-sinta"]) then
      bool_decide (group_key = "NON_SINTA")
    else if Py.isdigit sr then
      bool_decide (group_key = "SINTA_" +:+ sr)
    else false.

(** The catalog: the top-level JSON object in file order; only the values
    under the group keys are read. *)
Abbreviation catalog := (list (string * list journal_t)).

(** An element of a parsed list: a JSON object, or anything else (a
    string, a number, [null], a list), on which [journal.get] raises
    [AttributeError]. *)
Inductive json_item : Type :=
  | JObject (journal : journal_t)
  | JNotObject.

(** The body of [json.loads(sources_json)] as far as the code looks at
    it: a list, or something else. *)
Inductive json_doc : Type :=
  | JArray (items : list json_item)
  | JOther.

(** The form fields of the request. *)
Record request : Type := Request {
  topic : string;
  sinta_rank : option string;
  sources_json : option string
}.

(** What source resolution and retrieval come to. *)
Inductive resolution : Type :=
  | NoCatalog
  | BadSources
  | Retrieved (o : outcome).

(** ** The generator of the [/search] route *)

Section Search.

(** The spaCy pipeline behind [process_text]. *)
Variable process_text : string → list string.
(** [open(filename)] and [json.load]: [None] is [FileNotFoundError];
    [Some None] is a file that holds [null], which loads as [None]. *)
Variable read_json : string → option (option catalog).
(** [json.loads]: [None] when it raises. *)
Variable json_loads : string → option json_doc.
(** The search provider, asked with the [q] parameter. *)
Variable serpapi : string → response.
(** [df.sort_values('relevance_score', ascending=False)] and
    [to_dict(orient='records')], with pandas' default sort kind. *)
Variable sort_values : list scored → list scored.

(** The [except] clause of [search_google]: it prints
    [journal_info['nama_jurnal']] and returns the empty list, so without
    that key it raises in its turn. *)
Definition on_exception (journal_info : journal_t) : option (list article) :=
  match journal_info !! "nama_jurnal" with
  | Some _ => Some []
  | None => None
  end.

(** [search_google(query, journal_info)]: [None] is a [KeyError] that
    leaves the function, that of [journal_info['link']], raised before the
    [try], or that of the [except] clause; any other exception raised
    inside the [try] gives the empty list. *)
Definition search_google (query : string) (journal_info : journal_t)
    : option (list article) :=
  match journal_info !! "link" with
  | None => None
  | Some site =>
      match serpapi (search_query query site) with
      | RespError => on_exception journal_info
      | RespJson None => Some []
      | RespJson (Some results) =>
          match collect_articles journal_info site results [] with
          | Some articles => Some articles
          | None => on_exception journal_info
          end
      end
  end.

(** The catalog files are tried in order; the first that opens ends
    the loop with what it holds. *)
Fixpoint first_loaded (filenames : list string) : option catalog :=
  match filenames with
  | [] => None
  | filename :: rest =>
      match read_json filename with
      | Some data => data
      | None => first_loaded rest
      end
  end.

Definition journals_data : option catalog :=
  first_loaded ["list_journal_from_list_html.json"; "list_journal.json"].

(** The progress [yield], the fetch, the two [extend]s and the pacing
    delay, shared by both branches. [journal] already has its keys. *)
Definition visit (topic : string) (journal : journal_t) (rank : pyval)
    (s : session) : outcome :=
  match journal !! "nama_jurnal" with
  | None => Aborted s
  | Some nama =>
      let s := emit (Yield (EvProgress nama rank)) s in
      let s := emit (Search topic journal) s in
      match search_google topic journal with
      | None => Aborted s
      | Some results => Completed (emit Sleep (extend_results results s))
      end
  end.

(** [for journal in selected]: on an element that is no object the
    first [journal.get] raises and nothing catches it. *)
Fixpoint explicit_loop (topic : string) (selected : list json_item)
    (s : session) : outcome :=
  match selected with
  | [] => Completed s
  | JNotObject :: _ => Aborted s
  | JObject journal :: rest =>
      if get_falsy journal "nama_jurnal" && get_falsy journal "link"
      then explicit_loop topic rest s
      else
        let journal := ensure_keys journal in
        match visit topic journal (get_default journal "sinta_rank" PNone) s with
        | Completed s' => explicit_loop topic rest s'
        | Aborted s' => Aborted s'
        end
  end.

(** [for journal in journals_data[rank]] *)
Fixpoint group_loop (topic rank : string) (journals : list journal_t)
    (s : session) : outcome :=
  match journals with
  | [] => Completed s
  | journal :: rest =>
      if get_falsy journal "nama_jurnal"
      then group_loop topic rank rest s
      else
        let journal := <["sinta_rank" := PStr rank]> journal in
        match visit topic journal (PStr rank) s with
        | Completed s' => group_loop topic rank rest s'
        | Aborted s' => Aborted s'
        end
  end.

(** The two tests at the head of [for rank in journals_data]. *)
Definition group_selected (selected_rank : option string) (rank : string) : bool :=
  (Py.startswith rank "SINTA_" || bool_decide (rank = "NON_SINTA"))
  && group_matches selected_rank rank.

(** [for rank in journals_data] *)
Fixpoint catalog_loop (topic : string) (selected_rank : option string)
    (data : catalog) (s : session) : outcome :=
  match data with
  | [] => Completed s
  | (rank, journals) :: rest =>
      if negb (Py.startswith rank "SINTA_" || bool_decide (rank = "NON_SINTA"))
      then catalog_loop topic selected_rank rest s
      else if negb (group_matches selected_rank rank)
      then catalog_loop topic selected_rank rest s
      else
        match group_loop topic rank journals s with
        | Completed s' => catalog_loop topic selected_rank rest s'
        | Aborted s' => Aborted s'
        end
  end.

(** [generate] up to the end of the retrieval loop. *)
Definition retrieval (req : request) : resolution :=
  match journals_data with
  | None => NoCatalog
  | Some data =>
      if from_option Py.nonempty false (sources_json req) then
        match json_loads (default "" (sources_json req)) with
        | Some (JArray selected) =>
            Retrieved (explicit_loop (topic req) selected empty_session)
        | Some JOther | None => BadSources
        end
      else
        Retrieved (catalog_loop (topic req) (sinta_rank req) data empty_session)
  end.

(** The scoring pass: [for result in all_results]. *)
Definition score_results (a : analyzer) (query_terms : list string)
    (results : list article) : list scored :=
  map (λ r,
         let analysis := calculate_relevance process_text a query_terms (snippet r) in
         {| result := r;
            relevance_score := analysis.1;
            lexical_analysis := analysis.2 |})
      results.

(** The result set after the chain is built and every record scored. *)
Definition scored_results (topic : string) (s : session) : list scored :=
  let '(a, query_terms) := build_chains process_text topic (snippets s) new_analyzer in
  score_results a query_terms (all_results s).

(** Everything after the retrieval loop: the terminal [yield]. *)
Definition finish (topic : string) (s : session) : event :=
  let df := scored_results topic s in
  if 0 <? length df then EvBatch (sort_values df) else EvDone.

(** [generate]: everything the generator does for one request. *)
Definition generate (req : request) : list action :=
  match retrieval req with
  | NoCatalog => [Yield EvNoCatalog]
  | BadSources => [Yield EvBadSources]
  | Retrieved (Aborted s) => trace s
  | Retrieved (Completed s) => trace s ++ [Yield (finish (topic req) s)]
  end.

End Search.

(** ** The quantities the properties speak about *)

(** [term_frequencies.get(t, 0)] *)
Definition occurrence_count (a : analyzer) (t : string) : nat :=
  default 0 (term_frequencies a !! t).

(** [term_details.get(t, {}).get('connected_terms', {})] *)
Definition successor_counts (a : analyzer) (t : string) : list (string * nat) :=
  from_option connected_terms [] (term_details a !! t).

(** The sum of the counts of one [connected_terms] counter. *)
Definition counter_total (d : list (string * nat)) : nat := sum_list (d.*2).
Global Arguments counter_total : simpl never.

(** The successor links held in [lexical_chains], over all terms. *)
Definition chain_links (a : analyzer) : nat :=
  map_fold (λ _ successors n, length successors + n) 0 (lexical_chains a).

(** The successor links counted in [term_details], over all terms. *)
Definition counted_links (a : analyzer) : nat :=
  map_fold (λ _ d n, counter_total (connected_terms d) + n) 0 (term_details a).

(** The positions [i] of [range(len(all_terms) - 1)] with
    [all_terms[i] == t], counted one by one. *)
Definition followed_positions (t : string) (all_terms : list string) : nat :=
  length (filter (λ i, all_terms !! i = Some t) (seq 0 (length all_terms - 1))).

(** The same count by recursion on the stream. *)
Fixpoint followed (t : string) (all_terms : list string) : nat :=
  match all_terms with
  | current_term :: ((_ :: _) as rest) =>
      (if decide (current_term = t) then 1 else 0) + followed t rest
  | _ => 0
  end.

(** What one link out of [current_term] adds to each count of [t]. *)
Definition bump (current_term t : string) : nat :=
  if decide (current_term = t) then 1 else 0.

(** Every count of the analyzer agrees for [t]. *)
Definition counts_agree (a : analyzer) (t : string) : Prop :=
  occurrence_count a t = counter_total (successor_counts a t)
  ∧ occurrence_count a t = from_option count 0 (term_details a !! t)
  ∧ occurrence_count a t = length (default [] (lexical_chains a !! t)).

(** The items of a [connected_terms] counter whose term is in the
    snippet, in the order of the counter. *)
Definition connected_in (snippet_terms : list string) (items : list (string * nat))
    : list (string * nat) :=
  filter (λ item, item.1 ∈ snippet_terms) items.

(** The batch is in descending order of [relevance_score]. *)
Definition score_desc : relation scored :=
  λ x y, relevance_score y ≤ relevance_score x.

Global Instance score_desc_dec : RelDecision score_desc :=
  λ x y, decide (relevance_score y ≤ relevance_score x).

(** The records of a list that have score [v], in the order of the list. *)
Definition with_score (v : nat) (l : list scored) : list scored :=
  filter (λ r, relevance_score r = v) l.

(** [batch] keeps the records of equal score in their order of [arrival]. *)
Definition ties_in_arrival_order (arrival batch : list scored) : Prop :=
  ∀ v, with_score v batch = with_score v arrival.

(** The candidate passed the filter of [search_google]. *)
Definition is_pdf (r : article) : bool := Py.endswith (Py.lower (link r)) ".pdf".

(** What a retrieval loop does: progress events, fetches, delays. *)
Definition retrieval_action (x : action) : bool :=
  match x with
  | Yield (EvProgress _ _) | Search _ _ | Sleep => true
  | Yield _ => false
  end.

(** What holds of the session all along the retrieval loop: the pool is
    the snippets of the result set, record by record; every record passed
    the filter; nothing but retrieval has happened. *)
Definition session_ok (s : session) : Prop :=
  snippets s = snippet <$> all_results s
  ∧ Forall (λ r, is_pdf r = true) (all_results s)
  ∧ Forall (λ x, retrieval_action x = true) (trace s).

(** The same selection as [group_matches], in the words of the design:
    no filter, the non-ranked sentinel, or a numeric rank. *)
Definition group_included (selected_rank : option string) (group_key : string) : Prop :=
  let sr := Py.lower (Py.strip (default "" selected_rank)) in
  (from_option Py.nonempty false selected_rank = false
   ∧ (Py.startswith group_key "SINTA_" = true ∨ group_key = "NON_SINTA"))
  ∨ (from_option Py.nonempty false selected_rank = true
     ∧ sr ∈ ["non"; "nonsinta"; "non_sinta"; "non-sinta"]
     ∧ group_key = "NON_SINTA")
  ∨ (from_option Py.nonempty false selected_rank = true
     ∧ Py.isdigit sr = true
     ∧ group_key = "SINTA_" +:+ sr).

(** The session a resolution ends with; the empty one when retrieval
    never started. *)
Definition retrieved_session (r : resolution) : session :=
  match r with
  | Retrieved o => session_of o
  | NoCatalog | BadSources => empty_session
  end.

(** What one action brought into the result set: the records a fetch
    returned, nothing for the other actions. *)
Definition fetched (serpapi : string → response) (x : action) : list article :=
  match x with
  | Search topic journal => default [] (search_google serpapi topic journal)
  | Yield _ | Sleep => []
  end.

(** The result set is what the fetches returned, in the order of the
    fetches. *)
Definition results_fetched (serpapi : string → response) (s : session) : Prop :=
  all_results s = concat (fetched serpapi <$> trace s).

(** ** Sample collaborators

    Concrete stand-ins for the collaborators, on which the generator can
    be run. *)

Module Sample.

(** A normalizer: lower-case, split on white space. *)
Definition process_text (text : string) : list string :=
  String.words (Py.lower text).

Definition jurnal_a : journal_t :=
  {[ "nama_jurnal" := PStr "Jurnal A"; "link" := PStr "https://jurnal-a.example" ]}.

Definition the_catalog : catalog := [("SINTA_1", [jurnal_a])].

Definition one_file (filename : string) : option (option catalog) :=
  if decide (filename = "list_journal.json") then Some (Some the_catalog) else None.

Definition no_file (filename : string) : option (option catalog) := None.

Definition quote : string := String "034"%char "".

(** The text of an explicit source list with one entry, a URL only. *)
Definition sources_text : string :=
  "[{" +:+ quote +:+ "link" +:+ quote +:+ ": "
       +:+ quote +:+ "https://jurnal-b.example" +:+ quote +:+ "}]".

Definition url_only : journal_t := {[ "link" := PStr "https://jurnal-b.example" ]}.

Definition json_loads (text : string) : option json_doc :=
  if decide (text = sources_text) then Some (JArray [JObject url_only]) else None.

Definition hit (title url text : string) : organic :=
  {| o_title := Some title; o_link := Some url; o_snippet := Some text |}.

(** Two candidates, one of them on the topic ["irigasi"]. *)
Definition serpapi (q : string) : response :=
  RespJson (Some [hit "Satu" "https://jurnal-a.example/1.pdf" "sistem irigasi otomatis";
                  hit "Dua" "https://jurnal-a.example/2.PDF" "manajemen air";
                  hit "Tiga" "https://jurnal-a.example/3.html" "irigasi tetes"]).

(** Two candidates, neither on the topic, and one without a snippet. *)
Definition serpapi_off_topic (q : string) : response :=
  RespJson (Some [hit "Satu" "https://jurnal-a.example/1.pdf" "manajemen air";
                  hit "Dua" "https://jurnal-a.example/2.pdf" "kualitas tanah";
                  {| o_title := Some "Tiga";
                     o_link := Some "https://jurnal-a.example/3.pdf";
                     o_snippet := None |}]).

Definition serpapi_nothing (q : string) : response := RespJson (Some []).

(** Insertion behind the records of higher score and ahead of those of
    equal or lower score. *)
Fixpoint insert_ahead (x : scored) (l : list scored) : list scored :=
  match l with
  | [] => [x]
  | y :: l' =>
      if decide (relevance_score x < relevance_score y)
      then y :: insert_ahead x l'
      else x :: l
  end.

(** A sort by descending score that keeps ties in arrival order: each
    record is inserted ahead of what arrived after it. *)
Definition sort_stable (l : list scored) : list scored :=
  foldr insert_ahead [] l.

Definition irigasi : request :=
  {| topic := "irigasi"; sinta_rank := None; sources_json := None |}.

Definition irigasi_explicit : request :=
  {| topic := "irigasi"; sinta_rank := None; sources_json := Some sources_text |}.

(** The sessions the catalog branch ends with, per provider. *)
Definition on_topic_session : session :=
  retrieved_session (retrieval one_file json_loads serpapi irigasi).

Definition off_topic_session : session :=
  retrieved_session (retrieval one_file json_loads serpapi_off_topic irigasi).

Definition nothing_session : session :=
  retrieved_session (retrieval one_file json_loads serpapi_nothing irigasi).

End Sample.

(** ** The rest of the program *)

(** *** [process_text] over the tokens of the pipeline *)

(** What [process_text] reads of a spaCy token. *)
Record token : Type := Token {
  lemma_ : string;
  is_alpha : bool;
  is_stop : bool
}.

(** [process_text(text)], with the pipeline [nlp] as a function from a
    text to its tokens:
    [[token.lemma_ for token in nlp(text.lower())
      if token.is_alpha and not token.is_stop]]. *)
Definition process_text_with (nlp : string → list token) (text : string)
    : list string :=
  lemma_ <$> filter (λ tok, is_alpha tok && negb (is_stop tok)) (nlp (Py.lower text)).

(** *** Chains and counters read back *)

(** The adjacent pairs of the stream, left to right. *)
Definition adjacent (all_terms : list string) : list (string * string) :=
  zip all_terms (tail all_terms).

(** The terms that follow an occurrence of [t], in stream order. *)
Definition successors_of (t : string) (all_terms : list string) : list string :=
  (filter (λ p, p.1 = t) (adjacent all_terms)).*2.

(** The positions where [t] is immediately followed by [u]. *)
Definition bigram_count (t u : string) (all_terms : list string) : nat :=
  length (filter (λ p, p = (t, u)) (adjacent all_terms)).

(** [d.get(u, 0)] on an insertion-ordered counter. *)
Fixpoint counter_get (u : string) (d : list (string * nat)) : nat :=
  match d with
  | [] => 0
  | (k, n) :: d' => if decide (k = u) then n else counter_get u d'
  end.

(** A counter is a [dict]: no key twice; and no count is zero. *)
Definition counter_wf (d : list (string * nat)) : Prop :=
  NoDup (d.*1) ∧ Forall (λ p, 0 < p.2) d.

(** *** The score in closed form *)

(** The [term_analysis] entry of a query term found in the snippet. *)
Definition entry_for (a : analyzer) (snippet_terms : list string) (term : string)
    : term_entry :=
  {| te_term := term;
     te_score := occurrence_count a term;
     te_connected := connected_in snippet_terms (successor_counts a term) |}.

(** What one entry adds to the score: its base score and one for each
    connected term. *)
Definition entry_gain (e : term_entry) : nat :=
  te_score e + length (te_connected e).

(** The query terms found in the snippet, duplicates kept. *)
Definition matching_terms (snippet_terms query_terms : list string) : list string :=
  filter (λ term, term ∈ snippet_terms) query_terms.

(** *** The candidates of one fetch in closed form *)

(** The [article] built from one provider result. *)
Definition to_article (nama rank site : pyval) (r : organic) : article :=
  {| judul := default "" (o_title r);
     link := default "" (o_link r);
     snippet := default "" (o_snippet r);
     jurnal := nama;
     peringkat_sinta := rank;
     website_jurnal := site |}.

(** The provider result has a link that passes the filter. *)
Definition pdf_result (r : organic) : bool :=
  Py.endswith (Py.lower (default "" (o_link r))) ".pdf".

(** *** The sources of a request in closed form *)

(** The element is a JSON object. *)
Definition is_object (item : json_item) : bool :=
  match item with
  | JObject _ => true
  | JNotObject => false
  end.

(** The objects of a parsed list up to its first element that is no
    object. *)
Fixpoint objects_before (items : list json_item) : list journal_t :=
  match items with
  | JObject journal :: rest => journal :: objects_before rest
  | JNotObject :: _ | [] => []
  end.

(** The name an explicit entry is announced under: its name when the
    key is there, whatever the value; else its URL. *)
Definition announced_name (journal : journal_t) : pyval :=
  match journal !! "nama_jurnal" with
  | Some nama => nama
  | None => default (PStr "Tidak ada nama") (journal !! "link")
  end.

(** The rank an explicit entry is announced under: its rank when the key
    is there, whatever the value; else ["SELECTED"]. *)
Definition announced_rank (journal : journal_t) : pyval :=
  default (PStr "SELECTED") (journal !! "sinta_rank").

(** The entries of an explicit list that are fetched, keys ensured. *)
Definition explicit_sources (selected : list journal_t) : list journal_t :=
  ensure_keys
    <$> filter (λ journal,
                  get_falsy journal "nama_jurnal" && get_falsy journal "link" = false)
               selected.

(** The entries of the catalog that are fetched under a rank filter:
    group by group in file order, each entry stamped with its group. *)
Definition catalog_sources (selected_rank : option string) (data : catalog)
    : list journal_t :=
  data ≫= λ group,
    if group_selected selected_rank group.1
    then (λ journal, <["sinta_rank" := PStr group.1]> journal)
           <$> filter (λ journal, get_falsy journal "nama_jurnal" = false) group.2
    else [].

(** What the generator does for one source that is fetched. *)
Definition announce (topic : string) (journal : journal_t) : list action :=
  [Yield (EvProgress (default PNone (journal !! "nama_jurnal"))
                     (default PNone (journal !! "sinta_rank")));
   Search topic journal;
   Sleep].

(** The session after the sources have been fetched one after the other. *)
Definition after_sources (serpapi : string → response) (topic : string)
    (sources : list journal_t) (s : session) : session :=
  let found := sources ≫= λ journal, default [] (search_google serpapi topic journal) in
  {| all_results := all_results s ++ found;
     snippets := snippets s ++ (snippet <$> found);
     trace := trace s ++ (sources ≫= announce topic) |}.

(** One loop over a list of sources that have their keys: what both
    branches of the generator come to. *)
Fixpoint fetch_all (serpapi : string → response) (topic : string)
    (sources : list journal_t) (s : session) : outcome :=
  match sources with
  | [] => Completed s
  | journal :: rest =>
      match visit serpapi topic journal (default PNone (journal !! "sinta_rank")) s with
      | Completed s' => fetch_all serpapi topic rest s'
      | Aborted s' => Aborted s'
      end
  end.

(** The session the generator stops in when [journal], reached after
    [sources], raises in its fetch: announced and asked for, no more. *)
Definition aborted_at (serpapi : string → response) (topic : string)
    (sources : list journal_t) (journal : journal_t) (s : session) : session :=
  let s1 := after_sources serpapi topic sources s in
  {| all_results := all_results s1;
     snippets := snippets s1;
     trace := trace s1 ++ take 2 (announce topic journal) |}.

(** The source can be announced and fetched: it has a name and a link. *)
Definition fetchable (journal : journal_t) : Prop :=
  is_Some (journal !! "nama_jurnal") ∧ is_Some (journal !! "link").

(** A terminal event: anything but a progress event. *)
Definition terminal_event (e : event) : bool :=
  match e with
  | EvProgress _ _ => false
  | EvNoCatalog | EvBadSources | EvBatch _ | EvDone => true
  end.

(** *** The [/journals] route *)

(** A value of the catalog file: a group of sources or a text. *)
Inductive json_value : Type :=
  | JGroup (journals : list journal_t)
  | JText (text : string).

(** The route only looks keys up, so the file is a [dict] by key. *)
Abbreviation listing := (gmap string json_value).

(** [result[k] = v] on an insertion-ordered [dict]. *)
Fixpoint dict_set (k : string) (v : json_value) (d : list (string * json_value))
    : list (string * json_value) :=
  match d with
  | [] => [(k, v)]
  | (k', v') :: d' =>
      if decide (k' = k) then (k', v) :: d' else (k', v') :: dict_set k v d'
  end.

(** What the route answers: 404 with an error, or the [result] object. *)
Inductive journals_response : Type :=
  | NotFound
  | Listed (result : list (string * json_value)).

(** [for i in range(1, 7)]: append [f'SINTA_{i}'] when it is in [data]. *)
Definition ordered_step (data : listing) (ordered : list string) (i : nat)
    : list string :=
  let k := "SINTA_" +:+ pretty i in
  if decide (is_Some (data !! k)) then ordered ++ [k] else ordered.

(** The list [ordered] of the route. *)
Definition ordered_keys (data : listing) : list string :=
  let ordered := foldl (ordered_step data) [] (seq 1 6) in
  if decide (is_Some (data !! "NON_SINTA")) then ordered ++ ["NON_SINTA"] else ordered.

(** The [result] object of the route. *)
Definition journals_result (data : listing) : list (string * json_value) :=
  foldl (λ result k, dict_set k (default (JGroup []) (data !! k)) result)
        [("catatan", default (JText "") (data !! "catatan"))]
        (ordered_keys data).

(** [jsonify(result)] writes the object with its keys sorted: insertion
    of one item by key, in the order of [str]. *)
Fixpoint insert_by_key (x : string * json_value) (l : list (string * json_value))
    : list (string * json_value) :=
  match l with
  | [] => [x]
  | y :: l' => if String.leb x.1 y.1 then x :: l else y :: insert_by_key x l'
  end.

Definition jsonify (result : list (string * json_value))
    : list (string * json_value) :=
  foldr insert_by_key [] result.

Section Journals.

(** [open(filename)] and [json.load] of the route: [None] is
    [FileNotFoundError]; [Some None] is a file that holds [null], which
    loads as [None]. *)
Variable read_listing : string → option (option listing).

(** The first file that opens ends the loop with what it holds. *)
Fixpoint first_listing (filenames : list string) : option listing :=
  match filenames with
  | [] => None
  | filename :: rest =>
      match read_listing filename with
      | Some data => data
      | None => first_listing rest
      end
  end.

(** [journals()]: what the route answers. *)
Definition journals : journals_response :=
  match first_listing ["list_journal_from_list_html.json"; "list_journal.json"] with
  | None => NotFound
  | Some data => Listed (jsonify (journals_result data))
  end.

End Journals.

(** The seven group keys the route knows, in its order. *)
Definition known_groups : list string :=
  ["SINTA_1"; "SINTA_2"; "SINTA_3"; "SINTA_4"; "SINTA_5"; "SINTA_6"; "NON_SINTA"].

(** The same keys in the order of [str]. *)
Definition sorted_groups : list string :=
  ["NON_SINTA"; "SINTA_1"; "SINTA_2"; "SINTA_3"; "SINTA_4"; "SINTA_5"; "SINTA_6"].

(** ** More sample collaborators *)

Module Demo.

(** A pipeline that splits on white space, takes words of letters for
    alphabetic and knows two stop words. *)
Fixpoint letters (w : string) : bool :=
  match w with
  | EmptyString => true
  | String c w' => (97 <=? Py.ord c) && (Py.ord c <=? 122) && letters w'
  end.

Definition nlp (text : string) : list token :=
  (λ w, {| lemma_ := w;
           is_alpha := letters w;
           is_stop := bool_decide (w ∈ ["dan"; "di"]) |})
    <$> String.words text.

(** A catalog entry with a name and no link. *)
Definition no_link : journal_t := {[ "nama_jurnal" := PStr "Jurnal C" ]}.

Definition broken_catalog : catalog := [("SINTA_2", [no_link; Sample.jurnal_a])].

Definition broken_file (filename : string) : option (option catalog) :=
  if decide (filename = "list_journal.json") then Some (Some broken_catalog) else None.

Definition serpapi_down (q : string) : response := RespError.

Definition other_file (filename : string) : option (option catalog) :=
  if decide (filename = "list_journal_from_list_html.json")
  then Some (Some [("NON_SINTA", [])]) else None.

Definition irigasi_rank (f : string) : request :=
  {| topic := "irigasi"; sinta_rank := Some f; sources_json := None |}.

Definition irigasi_explicit_rank (f : string) : request :=
  {| topic := "irigasi"; sinta_rank := Some f;
     sources_json := Some Sample.sources_text |}.

Definition irigasi_bad : request :=
  {| topic := "irigasi"; sinta_rank := None; sources_json := Some "oops" |}.

(** The chain model of a three-term stream. *)
Definition small_model : analyzer :=
  chain_terms ["irigasi"; "sistem"; "irigasi"] new_analyzer.

(** A catalog file with two known groups, a seventh rank and a note. *)
Definition the_listing : listing :=
  {[ "NON_SINTA" := JGroup [];
     "SINTA_7" := JGroup [Sample.jurnal_a];
     "SINTA_2" := JGroup [Sample.jurnal_a];
     "catatan" := JText "diperbarui" ]}.

Definition listing_file (filename : string) : option (option listing) :=
  if decide (filename = "list_journal.json") then Some (Some the_listing) else None.

(** The first file holds [null]. *)
Definition null_file (filename : string) : option (option listing) :=
  if decide (filename = "list_journal.json") then Some (Some the_listing)
  else Some None.

(** An entry with an empty name and a URL, and one with a [null] rank. *)
Definition empty_name : journal_t :=
  {[ "nama_jurnal" := PStr ""; "link" := PStr "https://jurnal-b.example" ]}.

Definition null_rank : journal_t :=
  {[ "nama_jurnal" := PStr "Jurnal D"; "link" := PStr "https://jurnal-d.example";
     "sinta_rank" := PNone ]}.

(** A source list whose second element is a number. *)
Definition json_loads_mixed (text : string) : option json_doc :=
  if decide (text = Sample.sources_text)
  then Some (JArray [JObject Sample.url_only; JNotObject; JObject Sample.jurnal_a])
  else None.

End Demo.

(** * Properties *)

(** ** The chain builder *)

Section ChainFacts.

Implicit Types (a : analyzer) (t : string) (all_terms : list string).

Lemma build_step_cons x all_terms a i :
  build_step (x :: all_terms) a (S i) = build_step all_terms a i.
Proof. reflexivity. Qed.

Lemma chain_pairs_cons x y l a :
  chain_pairs (x :: y :: l) a = chain_pairs (y :: l) (add_link x y a).
Proof. reflexivity. Qed.

Lemma followed_cons x y l t :
  followed t (x :: y :: l) = bump x t + followed t (y :: l).
Proof. reflexivity. Qed.

Lemma foldl_build_step_cons x all_terms a (positions : list nat) :
  foldl (λ a i, build_step (x :: all_terms) a (S i)) a positions
  = foldl (build_step all_terms) a positions.
Proof.
  revert a. induction positions as [|i positions IH]; intros a; [done|].
  cbn [foldl]. by rewrite build_step_cons, IH.
Qed.

(** The loop over [range(len(all_terms) - 1)] visits the adjacent pairs
    of the stream from left to right. *)
Lemma chain_terms_pairs all_terms a :
  chain_terms all_terms a = chain_pairs all_terms a.
Proof.
  unfold chain_terms. revert a.
  induction all_terms as [|x [|y l] IH]; intros a; [done..|].
  replace (length (x :: y :: l) - 1) with (S (length (y :: l) - 1))
    by (simpl; lia).
  rewrite <- cons_seq, <- fmap_S_seq. cbn [foldl].
  rewrite foldl_fmap.
  change (build_step (x :: y :: l) a 0) with (add_link x y a).
  rewrite foldl_build_step_cons. apply IH.
Qed.

Lemma followed_positions_shift x all_terms t s n :
  length (filter (λ i, (x :: all_terms) !! i = Some t) (seq (S s) n))
  = length (filter (λ i, all_terms !! i = Some t) (seq s n)).
Proof.
  revert s. induction n as [|n IH]; intros s; [done|].
  cbn [seq]. rewrite !filter_cons. cbn [lookup list_lookup].
  specialize (IH (S s)).
  destruct (decide (all_terms !! s = Some t)); cbn [length]; by rewrite IH.
Qed.

(** Counting positions one by one and counting along the stream agree. *)
Lemma followed_positions_followed t all_terms :
  followed_positions t all_terms = followed t all_terms.
Proof.
  unfold followed_positions.
  induction all_terms as [|x [|y l] IH]; [done..|].
  replace (length (x :: y :: l) - 1) with (S (length (y :: l) - 1))
    by (simpl; lia).
  cbn [seq]. rewrite filter_cons.
  rewrite followed_cons, <- IH. unfold bump.
  change ((x :: y :: l) !! 0) with (Some x).
  destruct (decide (x = t)) as [->|Hne].
  - rewrite decide_True by done. cbn [length].
    by rewrite followed_positions_shift.
  - rewrite decide_False by congruence.
    by rewrite followed_positions_shift.
Qed.

Lemma counter_total_incr k d : counter_total (counter_incr k d) = S (counter_total d).
Proof.
  unfold counter_total. induction d as [|[k' n] d IH]; [done|].
  cbn. case_decide; cbn; [done|]. rewrite IH. lia.
Qed.

Lemma occurrence_count_add_link c n a t :
  occurrence_count (add_link c n a) t = occurrence_count a t + bump c t.
Proof.
  unfold occurrence_count, add_link, bump; cbn.
  destruct (decide (c = t)) as [->|Hne].
  - rewrite lookup_insert_eq. cbn. lia.
  - rewrite lookup_insert_ne by done. lia.
Qed.

Lemma successor_total_add_link c n a t :
  counter_total (successor_counts (add_link c n a) t)
  = counter_total (successor_counts a t) + bump c t.
Proof.
  unfold successor_counts, add_link, bump; cbn [term_details].
  destruct (decide (c = t)) as [->|Hne].
  - rewrite lookup_insert_eq. cbn [from_option connected_terms].
    rewrite counter_total_incr.
    destruct (term_details a !! t); cbn; lia.
  - rewrite lookup_insert_ne by done. lia.
Qed.

Lemma detail_count_add_link c n a t :
  from_option count 0 (term_details (add_link c n a) !! t)
  = from_option count 0 (term_details a !! t) + bump c t.
Proof.
  unfold add_link, bump; cbn.
  destruct (decide (c = t)) as [->|Hne].
  - rewrite lookup_insert_eq. cbn.
    destruct (term_details a !! t); cbn; lia.
  - rewrite lookup_insert_ne by done. lia.
Qed.

Lemma chain_length_add_link c n a t :
  length (default [] (lexical_chains (add_link c n a) !! t))
  = length (default [] (lexical_chains a !! t)) + bump c t.
Proof.
  unfold add_link, bump; cbn.
  destruct (decide (c = t)) as [->|Hne].
  - rewrite lookup_insert_eq. cbn. by rewrite length_app.
  - rewrite lookup_insert_ne by done. lia.
Qed.

(** [add_link] keeps the counts of every term in step. *)
Lemma counts_agree_add_link c n a t :
  counts_agree a t → counts_agree (add_link c n a) t.
Proof.
  intros (H1 & H2 & H3). unfold counts_agree.
  rewrite occurrence_count_add_link, successor_total_add_link,
    detail_count_add_link, chain_length_add_link.
  lia.
Qed.

Lemma counts_agree_new t : counts_agree new_analyzer t.
Proof. done. Qed.

Lemma counts_agree_chain_pairs all_terms a t :
  counts_agree a t → counts_agree (chain_pairs all_terms a) t.
Proof.
  revert a. induction all_terms as [|x [|y l] IH]; intros a Ha; [done..|].
  rewrite chain_pairs_cons. apply IH. by apply counts_agree_add_link.
Qed.

Lemma occurrence_count_chain_pairs all_terms a t :
  occurrence_count (chain_pairs all_terms a) t
  = occurrence_count a t + followed t all_terms.
Proof.
  revert a. induction all_terms as [|x [|y l] IH]; intros a; [cbn; lia..|].
  rewrite chain_pairs_cons, followed_cons, IH, occurrence_count_add_link.
  lia.
Qed.

(** The sum of a measure over a [dict], and what one update does to it. *)
Lemma map_total_insert {A} (g : A → nat) (k : string) (x : A) (m : gmap string A) :
  map_fold (λ _ y n, g y + n) 0 (<[k := x]> m) + from_option g 0 (m !! k)
  = g x + map_fold (λ _ y n, g y + n) 0 m.
Proof.
  destruct (m !! k) as [y|] eqn:Hk; cbn.
  - rewrite <- insert_delete_eq.
    rewrite map_fold_insert_L; [|intros; lia|apply lookup_delete_eq].
    rewrite (map_fold_delete_L _ _ k y m); [lia|intros; lia|done].
  - rewrite map_fold_insert_L; [lia|intros; lia|done].
Qed.

Lemma chain_links_add_link c n a :
  chain_links (add_link c n a) = S (chain_links a).
Proof.
  unfold chain_links, add_link; cbn.
  pose proof (map_total_insert (@length string) c
    (default [] (lexical_chains a !! c) ++ [n]) (lexical_chains a)) as H.
  rewrite length_app in H. cbn in H.
  destruct (lexical_chains a !! c); cbn in *; lia.
Qed.

Lemma counted_links_add_link c n a :
  counted_links (add_link c n a) = S (counted_links a).
Proof.
  unfold counted_links, add_link; cbn.
  set (d := default _ (term_details a !! c)).
  pose proof (map_total_insert (λ d, counter_total (connected_terms d)) c
    {| count := S (count d);
       connected_terms := counter_incr n (connected_terms d) |}
    (term_details a)) as H.
  cbn in H. rewrite counter_total_incr in H. subst d.
  destruct (term_details a !! c); cbn in *;
    change (counter_total []) with 0 in *; lia.
Qed.

Lemma links_chain_pairs all_terms a :
  chain_links (chain_pairs all_terms a) = chain_links a + (length all_terms - 1)
  ∧ counted_links (chain_pairs all_terms a)
    = counted_links a + (length all_terms - 1).
Proof.
  revert a. induction all_terms as [|x [|y l] IH]; intros a; [cbn; lia..|].
  rewrite chain_pairs_cons. destruct (IH (add_link x y a)) as [-> ->].
  rewrite chain_links_add_link, counted_links_add_link. cbn. lia.
Qed.

(** C4. Fed a term stream of length [n], the chain builder records
    exactly [n - 1] successor links, in [lexical_chains] and in the
    [connected_terms] counters alike; the subtraction is the one of
    [range(len(all_terms) - 1)], so a stream of length 0 or 1 records
    no link. *)
Theorem chain_builder_records_n_minus_1_links all_terms :
  let a := chain_terms all_terms new_analyzer in
  chain_links a = length all_terms - 1
  ∧ counted_links a = length all_terms - 1
  ∧ (if decide (length all_terms ≤ 1) then chain_links a = 0
     else S (chain_links a) = length all_terms).
Proof.
  cbn zeta. rewrite chain_terms_pairs.
  destruct (links_chain_pairs all_terms new_analyzer) as [-> ->].
  change (chain_links new_analyzer) with 0.
  change (counted_links new_analyzer) with 0.
  case_decide; lia.
Qed.

(** C5. After chain construction the occurrence count of every term [t]
    is the number of positions of the stream where [t] is immediately
    followed by another term, and it equals the sum of the successor
    counts of [t] (and the ['count'] entry and the length of the chain
    of [t]). *)
Theorem occurrence_count_is_followed_positions all_terms t :
  let a := chain_terms all_terms new_analyzer in
  occurrence_count a t = followed_positions t all_terms
  ∧ occurrence_count a t = counter_total (successor_counts a t)
  ∧ counts_agree a t.
Proof.
  cbn zeta. rewrite chain_terms_pairs, followed_positions_followed.
  pose proof (counts_agree_chain_pairs all_terms new_analyzer t
                (counts_agree_new t)) as Hagree.
  split; [|split; [apply Hagree|done]].
  by rewrite occurrence_count_chain_pairs.
Qed.

End ChainFacts.

(** ** The relevance scorer *)

Section ScorerFacts.

Variable process_text : string → list string.

Implicit Types (a : analyzer) (snippet_terms query_terms : list string).

(** The inner loop collects the connected terms found in the snippet
    and adds one to the score for each. *)
Lemma connected_loop snippet_terms items connected relevance_score :
  foldl (connected_step snippet_terms) (connected, relevance_score) items
  = (connected ++ connected_in snippet_terms items,
     relevance_score + length (connected_in snippet_terms items)).
Proof.
  revert connected relevance_score.
  induction items as [|item items IH]; intros connected relevance_score.
  - cbn. by rewrite app_nil_r, Nat.add_0_r.
  - cbn [foldl]. unfold connected_in. rewrite filter_cons.
    change (connected_step snippet_terms (connected, relevance_score) item)
      with (if bool_decide (item.1 ∈ snippet_terms)
            then (connected ++ [item], S relevance_score)
            else (connected, relevance_score)).
    destruct (decide (item.1 ∈ snippet_terms)) as [Hin|Hin].
    + rewrite bool_decide_eq_true_2 by done.
      rewrite IH. unfold connected_in. cbn [length].
      by rewrite <- app_assoc, Nat.add_succ_r.
    + rewrite bool_decide_eq_false_2 by done. by rewrite IH.
Qed.

(** One query term adds the same score and the same entry whatever was
    accumulated before it. *)
Lemma relevance_step_shift a snippet_terms score analysis term :
  relevance_step a snippet_terms (score, analysis) term
  = (score + (relevance_step a snippet_terms (0, []) term).1,
     analysis ++ (relevance_step a snippet_terms (0, []) term).2).
Proof.
  unfold relevance_step. cbn [fst snd].
  destruct (bool_decide (term ∈ snippet_terms)).
  - rewrite !connected_loop. cbn. f_equal. lia.
  - cbn. by rewrite app_nil_r, Nat.add_0_r.
Qed.

Lemma relevance_loop_shift a snippet_terms score analysis query_terms :
  foldl (relevance_step a snippet_terms) (score, analysis) query_terms
  = (score + (foldl (relevance_step a snippet_terms) (0, []) query_terms).1,
     analysis ++ (foldl (relevance_step a snippet_terms) (0, []) query_terms).2).
Proof.
  revert score analysis.
  induction query_terms as [|term query_terms IH]; intros score analysis.
  - cbn. by rewrite app_nil_r, Nat.add_0_r.
  - cbn [foldl]. rewrite (relevance_step_shift a snippet_terms score analysis).
    rewrite IH.
    rewrite (surjective_pairing (relevance_step a snippet_terms (0, []) term)) at 3 4.
    rewrite (IH (relevance_step a snippet_terms (0, []) term).1).
    cbn [fst snd]. f_equal; [lia|by rewrite app_assoc].
Qed.

(** Scoring a query list in two parts: scores add up, analyses follow
    one another. *)
Lemma calculate_relevance_app a q1 q2 snippet :
  calculate_relevance process_text a (q1 ++ q2) snippet
  = ((calculate_relevance process_text a q1 snippet).1
     + (calculate_relevance process_text a q2 snippet).1,
     (calculate_relevance process_text a q1 snippet).2
     ++ (calculate_relevance process_text a q2 snippet).2).
Proof.
  unfold calculate_relevance. rewrite foldl_app.
  rewrite (surjective_pairing (foldl _ (0, []) q1)) at 1.
  by rewrite relevance_loop_shift.
Qed.

(** C6. Duplicate query terms are scored once each: whatever the chain
    model and the snippet, the query [[a; a]] scores exactly twice what
    [[a]] scores, and its term analysis is that of [[a]] twice over. *)
Theorem duplicate_query_term_scores_twice a term snippet :
  let once := calculate_relevance process_text a [term] snippet in
  let twice := calculate_relevance process_text a [term; term] snippet in
  twice.1 = 2 * once.1
  ∧ twice.2 = once.2 ++ once.2
  ∧ length twice.2 = 2 * length once.2.
Proof.
  cbn zeta.
  change [term; term] with ([term] ++ [term]).
  rewrite calculate_relevance_app. cbn [fst snd].
  rewrite length_app. repeat split; lia.
Qed.

End ScorerFacts.

(** ** Group selection in catalog mode *)

Section GroupFacts.

Implicit Types (selected_rank : option string) (group_key sr : string).

Lemma startswith_app p s : Py.startswith (p +:+ s) p = true.
Proof.
  induction p as [|c p IH]; [reflexivity|].
  change (String c p +:+ s) with (String c (p +:+ s)).
  cbn [Py.startswith]. by rewrite bool_decide_eq_true_2, IH.
Qed.

Lemma sentinel_not_digit sr :
  sr ∈ ["non"; "nonsinta"; "non_sinta"; "non-sinta"] → Py.isdigit sr = false.
Proof.
  intros H. repeat (apply elem_of_cons in H as [->|H]; [by vm_compute|]).
  by apply elem_of_nil in H.
Qed.

(** C7. In catalog mode a group key is selected exactly when no rank
    filter is given and the key is a [SINTA_] group or [NON_SINTA], or
    the stripped, lower-cased filter is one of the non-ranked sentinels
    and the key is [NON_SINTA], or it is a string of digits [n] and the
    key is exactly [SINTA_n]; the test at the head of the catalog loop
    selects the same keys. *)
Theorem group_matches_iff_included selected_rank group_key :
  (group_matches selected_rank group_key = true
   ↔ group_included selected_rank group_key)
  ∧ group_selected selected_rank group_key = group_matches selected_rank group_key.
Proof.
  assert (group_matches selected_rank group_key = true
          ↔ group_included selected_rank group_key) as Hiff.
  { unfold group_matches, group_included. cbn zeta.
    set (sr := Py.lower (Py.strip (default "" selected_rank))).
    destruct (from_option Py.nonempty false selected_rank); cbn [negb].
    - destruct (decide (sr ∈ ["non"; "nonsinta"; "non_sinta"; "non-sinta"]))
        as [Hs|Hs].
      + rewrite (bool_decide_eq_true_2 _ Hs), bool_decide_eq_true.
        pose proof (sentinel_not_digit sr Hs). intuition congruence.
      + rewrite (bool_decide_eq_false_2 _ Hs).
        destruct (Py.isdigit sr).
        * rewrite bool_decide_eq_true. intuition congruence.
        * intuition congruence.
    - rewrite orb_true_iff, bool_decide_eq_true. intuition congruence. }
  split; [done|].
  unfold group_selected.
  destruct (group_matches selected_rank group_key) eqn:Hm;
    [|by rewrite andb_false_r].
  rewrite andb_true_r.
  destruct (proj1 Hiff eq_refl) as [[_ Hk]|[(_ & _ & ->)|(_ & _ & ->)]].
  - apply orb_true_iff. rewrite bool_decide_eq_true. done.
  - done.
  - by rewrite startswith_app.
Qed.

(** The filter ["3"] selects [SINTA_3] and nothing else. *)
Lemma rank_3_selects_SINTA_3 group_key :
  group_matches (Some "3") group_key = true ↔ group_key = "SINTA_3".
Proof. cbn. apply bool_decide_eq_true. Qed.

(** The sentinel, in any case and with a hyphen, selects [NON_SINTA]
    and nothing else. *)
Lemma non_selects_NON_SINTA group_key :
  (group_matches (Some "non") group_key = true ↔ group_key = "NON_SINTA")
  ∧ (group_matches (Some "Non-Sinta") group_key = true ↔ group_key = "NON_SINTA")
  ∧ (group_matches (Some " NON_SINTA ") group_key = true ↔ group_key = "NON_SINTA").
Proof. repeat split; intros H; try (by apply bool_decide_eq_true in H); by subst. Qed.

(** Without a filter every [SINTA_] group and [NON_SINTA] are selected. *)
Lemma no_filter_selects_all_groups :
  Forall (λ k, group_matches None k = true ∧ group_matches (Some "") k = true)
    ["SINTA_1"; "SINTA_2"; "SINTA_3"; "SINTA_4"; "SINTA_5"; "SINTA_6"; "NON_SINTA"].
Proof. repeat constructor. Qed.

End GroupFacts.

(** ** The retrieval loop *)

Section RetrievalFacts.

Variable serpapi : string → response.

Implicit Types (s : session) (journal : journal_t) (o : outcome).

Lemma collect_articles_pdf journal site results articles found :
  Forall (λ r, is_pdf r = true) articles →
  collect_articles journal site results articles = Some found →
  Forall (λ r, is_pdf r = true) found.
Proof.
  revert articles. induction results as [|result rest IH]; intros articles Hacc Hrun.
  - cbn in Hrun. by simplify_eq.
  - cbn [collect_articles] in Hrun.
    destruct (Py.endswith (Py.lower (default "" (o_link result))) ".pdf") eqn:Hpdf;
      cbn [negb] in Hrun; [|by eapply IH].
    destruct (journal !! "nama_jurnal"); [|done].
    eapply IH; [|done]. apply Forall_app; split; [done|].
    by repeat constructor.
Qed.

Lemma search_google_pdf query journal :
  Forall (λ r, is_pdf r = true) (default [] (search_google serpapi query journal)).
Proof.
  unfold search_google, on_exception.
  destruct (journal !! "link") as [site|]; [|by constructor].
  destruct (serpapi _) as [|[results|]]; [by destruct (journal !! _)| |by constructor].
  destruct (collect_articles _ _ _ _) as [found|] eqn:Hrun;
    [|by destruct (journal !! _)].
  by eapply collect_articles_pdf.
Qed.

Lemma session_ok_empty : session_ok empty_session.
Proof. repeat split; constructor. Qed.

Lemma session_ok_emit x s :
  retrieval_action x = true → session_ok s → session_ok (emit x s).
Proof.
  intros Hx (Hpool & Hpdf & Htrace). repeat split; [done..|].
  cbn. apply Forall_app; split; [done|]. by repeat constructor.
Qed.

Lemma session_ok_extend results s :
  Forall (λ r, is_pdf r = true) results → session_ok s →
  session_ok (extend_results results s).
Proof.
  intros Hres (Hpool & Hpdf & Htrace). repeat split; cbn; [|by apply Forall_app|done].
  by rewrite Hpool, fmap_app.
Qed.

(** What one visit does when nothing is raised: one progress event, one
    fetch, every returned record and every returned snippet appended,
    one delay. *)
Lemma visit_completed topic journal rank s s' :
  visit serpapi topic journal rank s = Completed s' →
  ∃ nama results,
    journal !! "nama_jurnal" = Some nama
    ∧ search_google serpapi topic journal = Some results
    ∧ s' = emit Sleep (extend_results results
             (emit (Search topic journal) (emit (Yield (EvProgress nama rank)) s))).
Proof.
  unfold visit. intros H.
  destruct (journal !! "nama_jurnal") as [nama|]; [|done].
  destruct (search_google serpapi topic journal) as [results|]; [|done].
  exists nama, results. by simplify_eq.
Qed.

Lemma visit_ok topic journal rank s :
  session_ok s → session_ok (session_of (visit serpapi topic journal rank s)).
Proof.
  intros Hs. unfold visit.
  destruct (journal !! "nama_jurnal") as [nama|]; [|done].
  pose proof (search_google_pdf topic journal) as Hpdf.
  destruct (search_google serpapi topic journal) as [results|]; cbn in *.
  - apply session_ok_emit; [done|]. apply session_ok_extend; [done|].
    by repeat apply session_ok_emit.
  - by repeat apply session_ok_emit.
Qed.

Lemma explicit_loop_ok topic selected s :
  session_ok s → session_ok (session_of (explicit_loop serpapi topic selected s)).
Proof.
  revert s. induction selected as [|[journal|] rest IH]; intros s Hs; [done| |done].
  cbn [explicit_loop].
  destruct (get_falsy journal "nama_jurnal" && get_falsy journal "link"); [by apply IH|].
  pose proof (visit_ok topic (ensure_keys journal)
    (get_default (ensure_keys journal) "sinta_rank" PNone) s Hs) as Hv.
  destruct (visit _ _ _ _ _); [by apply IH|done].
Qed.

Lemma group_loop_ok topic rank journals s :
  session_ok s → session_ok (session_of (group_loop serpapi topic rank journals s)).
Proof.
  revert s. induction journals as [|journal rest IH]; intros s Hs; [done|].
  cbn [group_loop].
  destruct (get_falsy journal "nama_jurnal"); [by apply IH|].
  pose proof (visit_ok topic (<["sinta_rank" := PStr rank]> journal) (PStr rank) s Hs) as Hv.
  destruct (visit _ _ _ _ _); [by apply IH|done].
Qed.

Lemma catalog_loop_ok topic selected_rank data s :
  session_ok s →
  session_ok (session_of (catalog_loop serpapi topic selected_rank data s)).
Proof.
  revert s. induction data as [|[rank journals] rest IH]; intros s Hs; [done|].
  cbn [catalog_loop].
  destruct (negb _); [by apply IH|].
  destruct (negb _); [by apply IH|].
  pose proof (group_loop_ok topic rank journals s Hs) as Hg.
  destruct (group_loop _ _ _ _ _); [by apply IH|done].
Qed.

(** [ensure_keys] leaves the three keys present. *)
Lemma setdefault_lookup k dflt journal :
  setdefault k dflt journal !! k = Some (default dflt (journal !! k)).
Proof.
  unfold setdefault. destruct (journal !! k) eqn:Hk; [done|].
  by rewrite lookup_insert_eq.
Qed.

Lemma setdefault_lookup_ne k k' dflt journal :
  k ≠ k' → setdefault k dflt journal !! k' = journal !! k'.
Proof.
  intros Hne. unfold setdefault. destruct (journal !! k); [done|].
  by rewrite lookup_insert_ne.
Qed.

Lemma ensure_keys_nama journal :
  ensure_keys journal !! "nama_jurnal"
  = Some (default (get_default journal "link" (PStr "Tidak ada nama"))
                  (journal !! "nama_jurnal")).
Proof.
  unfold ensure_keys.
  rewrite !setdefault_lookup_ne by done. apply setdefault_lookup.
Qed.

(** A key that is present keeps its value, empty or not: [setdefault]
    looks at the key, not at the truth value. *)
Lemma ensure_keys_keeps_name journal v :
  journal !! "nama_jurnal" = Some v → ensure_keys journal !! "nama_jurnal" = Some v.
Proof. intros Hn. by rewrite ensure_keys_nama, Hn. Qed.

Lemma ensure_keys_link journal :
  ensure_keys journal !! "link" = Some (get_default journal "link" (PStr "")).
Proof.
  unfold ensure_keys.
  rewrite setdefault_lookup_ne by done. rewrite setdefault_lookup.
  unfold get_default. rewrite !setdefault_lookup_ne by done.
  by destruct (journal !! "link").
Qed.

Lemma ensure_keys_rank journal :
  ensure_keys journal !! "sinta_rank"
  = Some (get_default journal "sinta_rank" (PStr "SELECTED")).
Proof.
  unfold ensure_keys. rewrite setdefault_lookup.
  unfold get_default. rewrite !setdefault_lookup_ne by done.
  by destruct (journal !! "sinta_rank").
Qed.

(** With its keys ensured a source is always fetched. *)
Lemma search_google_ensured topic journal :
  is_Some (search_google serpapi topic (ensure_keys journal)).
Proof.
  unfold search_google, on_exception. rewrite ensure_keys_link, ensure_keys_nama.
  destruct (serpapi _) as [|[results|]]; [eauto| |eauto].
  destruct (collect_articles _ _ _ _); eauto.
Qed.

End RetrievalFacts.

(** ** The generator *)

Section GeneratorFacts.

Variable process_text : string → list string.
Variable read_json : string → option (option catalog).
Variable json_loads : string → option json_doc.
Variable serpapi : string → response.
Variable sort_values : list scored → list scored.

Implicit Types (s : session) (journal : journal_t) (o : outcome) (req : request).

Lemma results_fetched_visit topic journal rank s :
  results_fetched serpapi s →
  results_fetched serpapi (session_of (visit serpapi topic journal rank s)).
Proof.
  unfold results_fetched, visit. intros Hs.
  destruct (journal !! "nama_jurnal") as [nama|]; [|done].
  destruct (search_google serpapi topic journal) as [results|] eqn:Hfetch; cbn.
  - rewrite !fmap_app, !concat_app, <- Hs. cbn. rewrite Hfetch. cbn.
    by rewrite !app_nil_r.
  - rewrite !fmap_app, !concat_app, <- Hs. cbn. rewrite Hfetch. cbn.
    by rewrite !app_nil_r.
Qed.

Lemma results_fetched_explicit topic selected s :
  results_fetched serpapi s →
  results_fetched serpapi (session_of (explicit_loop serpapi topic selected s)).
Proof.
  revert s. induction selected as [|[journal|] rest IH]; intros s Hs; [done| |done].
  cbn [explicit_loop].
  destruct (get_falsy journal "nama_jurnal" && get_falsy journal "link"); [by apply IH|].
  pose proof (results_fetched_visit topic (ensure_keys journal)
    (get_default (ensure_keys journal) "sinta_rank" PNone) s Hs) as Hv.
  destruct (visit _ _ _ _ _); [by apply IH|done].
Qed.

Lemma results_fetched_group topic rank journals s :
  results_fetched serpapi s →
  results_fetched serpapi (session_of (group_loop serpapi topic rank journals s)).
Proof.
  revert s. induction journals as [|journal rest IH]; intros s Hs; [done|].
  cbn [group_loop].
  destruct (get_falsy journal "nama_jurnal"); [by apply IH|].
  pose proof (results_fetched_visit topic (<["sinta_rank" := PStr rank]> journal)
    (PStr rank) s Hs) as Hv.
  destruct (visit _ _ _ _ _); [by apply IH|done].
Qed.

Lemma results_fetched_catalog topic selected_rank data s :
  results_fetched serpapi s →
  results_fetched serpapi
    (session_of (catalog_loop serpapi topic selected_rank data s)).
Proof.
  revert s. induction data as [|[rank journals] rest IH]; intros s Hs; [done|].
  cbn [catalog_loop].
  destruct (negb _); [by apply IH|].
  destruct (negb _); [by apply IH|].
  pose proof (results_fetched_group topic rank journals s Hs) as Hg.
  destruct (group_loop _ _ _ _ _); [by apply IH|done].
Qed.

(** Whatever the request, the session the retrieval loop leaves behind
    satisfies both invariants. *)
Lemma retrieval_session req o :
  retrieval read_json json_loads serpapi req = Retrieved o →
  session_ok (session_of o) ∧ results_fetched serpapi (session_of o).
Proof.
  unfold retrieval. intros H.
  destruct (journals_data read_json) as [data|]; [|done].
  destruct (from_option Py.nonempty false (sources_json req)).
  - destruct (json_loads _) as [[selected|]|]; try done. simplify_eq. split.
    + apply explicit_loop_ok, session_ok_empty.
    + by apply results_fetched_explicit.
  - simplify_eq. split.
    + apply catalog_loop_ok, session_ok_empty.
    + by apply results_fetched_catalog.
Qed.

Lemma retrieval_no_catalog req :
  retrieval read_json json_loads serpapi req = NoCatalog ↔ journals_data read_json = None.
Proof.
  unfold retrieval.
  destruct (journals_data read_json) as [data|]; [|done].
  split; [|done].
  destruct (from_option Py.nonempty false (sources_json req)); [|done].
  by destruct (json_loads _) as [[selected|]|].
Qed.

(** Scoring keeps the records and their order. *)
Lemma scored_results_results topic s :
  result <$> scored_results process_text topic s = all_results s.
Proof.
  unfold scored_results. destruct (build_chains _ _ _ _) as [a query_terms].
  unfold score_results. rewrite <- list_fmap_compose.
  by rewrite <- (list_fmap_id (all_results s)) at 2.
Qed.

Lemma scored_results_length topic s :
  length (scored_results process_text topic s) = length (all_results s).
Proof. by rewrite <- (scored_results_results topic s), length_fmap. Qed.

(** The terminal event after retrieval: the sentinel for an empty
    result set, the sorted batch otherwise. *)
Lemma finish_cases topic s :
  finish process_text sort_values topic s
  = match all_results s with
    | [] => EvDone
    | _ :: _ => EvBatch (sort_values (scored_results process_text topic s))
    end.
Proof.
  unfold finish. cbn zeta. rewrite scored_results_length.
  by destruct (all_results s).
Qed.

(** The retrieval loop never yields a terminal event. *)
Lemma trace_no_terminal s e :
  session_ok s → Yield e ∈ trace s → ∃ nama rank, e = EvProgress nama rank.
Proof.
  intros (_ & _ & Htrace) Hin.
  rewrite Forall_forall in Htrace. specialize (Htrace _ Hin).
  destruct e; try done. eauto.
Qed.

Lemma run_events req e :
  Yield e ∈ generate process_text read_json json_loads serpapi sort_values req →
  match retrieval read_json json_loads serpapi req with
  | NoCatalog => e = EvNoCatalog
  | BadSources => e = EvBadSources
  | Retrieved (Aborted s) => ∃ nama rank, e = EvProgress nama rank
  | Retrieved (Completed s) =>
      (∃ nama rank, e = EvProgress nama rank)
      ∨ e = finish process_text sort_values (topic req) s
  end.
Proof.
  unfold generate. destruct (retrieval read_json json_loads serpapi req) as [| |[s|s]] eqn:Hr.
  - intros Hin%list_elem_of_singleton. by simplify_eq.
  - intros Hin%list_elem_of_singleton. by simplify_eq.
  - destruct (retrieval_session _ _ Hr) as [Hok _].
    intros [Hin|Hin%list_elem_of_singleton]%elem_of_app.
    + left. by eapply trace_no_terminal.
    + right. by simplify_eq.
  - destruct (retrieval_session _ _ Hr) as [Hok _].
    intros Hin. by eapply trace_no_terminal.
Qed.

(** C1, as the code has it. A missing catalog is fatal in both modes:
    whenever neither catalog file can be loaded the generator yields
    the missing-catalog error as its only event and attempts no
    retrieval, whether or not an explicit source list was supplied; and
    that error is yielded only when no catalog could be loaded. *)
Theorem missing_catalog_is_fatal_in_both_modes req :
  (journals_data read_json = None →
     generate process_text read_json json_loads serpapi sort_values req
     = [Yield EvNoCatalog])
  ∧ (Yield EvNoCatalog
       ∈ generate process_text read_json json_loads serpapi sort_values req →
     journals_data read_json = None).
Proof.
  split.
  - intros Hnone. apply (retrieval_no_catalog req) in Hnone.
    unfold generate. by rewrite Hnone.
  - intros Hin%run_events. apply (retrieval_no_catalog req).
    destruct (retrieval read_json json_loads serpapi req) as [| |[s|s]]; [done|done|..].
    + destruct Hin as [(? & ? & ?)|Hfin]; [done|].
      rewrite finish_cases in Hfin. by destruct (all_results s).
    + by destruct Hin as (? & ? & ?).
Qed.

(** C3, as the code has it. Every record a fetch returns is appended to
    the result set, and the snippet of every returned record, empty or
    not, is appended to the snippet pool: after the retrieval loop the
    result set is what the fetches returned, in order, and the pool is
    the snippet of each record of the result set, in order. *)
Theorem every_returned_snippet_is_pooled req o :
  retrieval read_json json_loads serpapi req = Retrieved o →
  all_results (session_of o) = concat (fetched serpapi <$> trace (session_of o))
  ∧ snippets (session_of o) = snippet <$> all_results (session_of o)
  ∧ length (snippets (session_of o)) = length (all_results (session_of o)).
Proof.
  intros [(Hpool & _ & _) Hfetched]%retrieval_session.
  repeat split; [done..|]. by rewrite Hpool, length_fmap.
Qed.

(** C9. When every source has been processed and the result set is
    empty, the generator ends with the sentinel [DONE] event: the
    stream carries no batch, empty or not, and no error event. *)
Theorem empty_result_set_ends_with_done req s :
  retrieval read_json json_loads serpapi req = Retrieved (Completed s) → all_results s = [] →
  generate process_text read_json json_loads serpapi sort_values req = trace s ++ [Yield EvDone]
  ∧ (∀ e,
       Yield e ∈ generate process_text read_json json_loads serpapi sort_values req →
       e = EvDone ∨ ∃ nama rank, e = EvProgress nama rank)
  ∧ (∀ batch, EvDone ≠ EvBatch batch).
Proof.
  intros Hr Hempty. split; [|split; [|done]].
  - unfold generate. by rewrite Hr, finish_cases, Hempty.
  - intros e Hin%run_events. rewrite Hr in Hin.
    destruct Hin as [?| ->]; [by right|]. left.
    by rewrite finish_cases, Hempty.
Qed.

(** C10. Every candidate record a fetch produces has a link that ends
    with [.pdf] once lower-cased, so a provider result with any other
    link is dropped: it is in no result set, its snippet is not in the
    pool, and, as sorting only rearranges rows, it is in no batch. *)
Theorem only_pdf_links_become_candidates req :
  (∀ query journal,
     Forall (λ r, is_pdf r = true) (default [] (search_google serpapi query journal)))
  ∧ (∀ o, retrieval read_json json_loads serpapi req = Retrieved o →
       Forall (λ r, is_pdf r = true) (all_results (session_of o))
       ∧ snippets (session_of o) = snippet <$> all_results (session_of o))
  ∧ (∀ batch, (∀ df, sort_values df ≡ₚ df) →
       Yield (EvBatch batch)
         ∈ generate process_text read_json json_loads serpapi sort_values req →
       Forall (λ r, is_pdf (result r) = true) batch).
Proof.
  split; [apply search_google_pdf|]. split.
  - by intros o [(Hpool & Hpdf & _) _]%retrieval_session.
  - intros batch Hperm Hin%run_events.
    destruct (retrieval read_json json_loads serpapi req) as [| |[s|s]] eqn:Hr; [done|done|..].
    + destruct Hin as [(? & ? & ?)|Hfin]; [done|].
      rewrite finish_cases in Hfin. destruct (all_results s) eqn:Hres; [done|].
      simplify_eq. rewrite Hperm.
      destruct (retrieval_session _ _ Hr) as [(_ & Hpdf & _) _].
      cbn [session_of] in Hpdf.
      rewrite <- (scored_results_results (topic req) s) in Hpdf.
      by rewrite Forall_fmap in Hpdf.
    + by destruct Hin as (? & ? & ?).
Qed.

End GeneratorFacts.

(** ** The sample sort *)

Section SortFacts.

Lemma insert_ahead_perm x l : Sample.insert_ahead x l ≡ₚ x :: l.
Proof.
  induction l as [|y l IH]; [done|].
  cbn. case_decide; [|done]. rewrite IH. apply Permutation_swap.
Qed.

Lemma sort_stable_perm df : Sample.sort_stable df ≡ₚ df.
Proof.
  unfold Sample.sort_stable. induction df as [|x df IH]; [done|].
  cbn. by rewrite insert_ahead_perm, IH.
Qed.

Lemma insert_ahead_sorted x l :
  Sorted score_desc l → Sorted score_desc (Sample.insert_ahead x l).
Proof.
  induction 1 as [|y l Hsorted IH Hhd]; [by repeat constructor|].
  cbn. case_decide as Hlt.
  - constructor; [done|].
    destruct Hhd as [|z l Hz]; cbn; [constructor; unfold score_desc; lia|].
    case_decide; constructor; [done|unfold score_desc; lia].
  - constructor; [by constructor|].
    constructor. unfold score_desc. lia.
Qed.

Lemma sort_stable_sorted df : Sorted score_desc (Sample.sort_stable df).
Proof.
  unfold Sample.sort_stable. induction df as [|x df IH]; [constructor|].
  cbn. by apply insert_ahead_sorted.
Qed.

Lemma with_score_insert_ahead v x l :
  with_score v (Sample.insert_ahead x l) = with_score v (x :: l).
Proof.
  unfold with_score. induction l as [|y l IH]; [done|].
  cbn [Sample.insert_ahead]. case_decide as Hlt; [|done].
  rewrite (filter_cons _ y), IH, !filter_cons.
  destruct (decide (relevance_score x = v)), (decide (relevance_score y = v));
    try done; lia.
Qed.

(** The sample sort keeps the records of equal score in arrival order. *)
Lemma sort_stable_keeps_ties df : ties_in_arrival_order df (Sample.sort_stable df).
Proof.
  intros v. unfold Sample.sort_stable. induction df as [|x df IH]; [done|].
  cbn [foldr]. rewrite with_score_insert_ahead.
  unfold with_score in *. by rewrite !filter_cons, IH.
Qed.

End SortFacts.

(** ** Runs on the sample collaborators *)

Section SampleRuns.

Import Sample.

(** The scenario of the design: one source, two candidates, the one on
    the topic ranked first. *)
Example irigasi_scenario :
  let events :=
    generate process_text one_file json_loads serpapi sort_stable irigasi in
  Yield (EvProgress (PStr "Jurnal A") (PStr "SINTA_1")) ∈ events
  ∧ ∃ batch, last events = Some (Yield (EvBatch batch))
      ∧ (λ r, (judul (result r), relevance_score r)) <$> batch
        = [("Satu", 4); ("Dua", 0)].
Proof.
  split; [vm_compute; by left|]. eexists. split; vm_compute; reflexivity.
Qed.

(** Without a catalog file the request with an explicit source list
    ends in the error event alone. *)
Lemma missing_catalog_witness :
  journals_data no_file = None
  ∧ generate process_text no_file json_loads serpapi sort_stable irigasi_explicit
    = [Yield EvNoCatalog].
Proof.
  split; [reflexivity|].
  apply (missing_catalog_is_fatal_in_both_modes
           process_text no_file json_loads serpapi sort_stable irigasi_explicit).
  reflexivity.
Defined.

(** C1 does not hold as stated: an explicit source list is supplied and
    parses to one usable entry, yet with no catalog file the generator
    yields the missing-catalog error and fetches nothing; with a
    catalog file the same request fetches the entry. *)
Lemma explicit_sources_without_catalog_not_retrieved :
  sources_json irigasi_explicit = Some sources_text
  ∧ json_loads sources_text = Some (JArray [JObject url_only])
  ∧ journals_data no_file = None
  ∧ generate process_text no_file json_loads serpapi sort_stable irigasi_explicit
    = [Yield EvNoCatalog]
  ∧ Search "irigasi" (ensure_keys url_only)
    ∈ generate process_text one_file json_loads serpapi sort_stable irigasi_explicit
  ∧ Search "irigasi" (ensure_keys url_only)
    ∉ generate process_text no_file json_loads serpapi sort_stable irigasi_explicit.
Proof.
  repeat split; try reflexivity.
  - vm_compute. right. by left.
  - intros Hin. vm_compute in Hin.
    apply list_elem_of_singleton in Hin. discriminate Hin.
Qed.

(** The pool follows the result set on a run of the catalog branch. *)
Lemma every_returned_snippet_is_pooled_witness :
  all_results on_topic_session
  = concat (fetched serpapi <$> trace on_topic_session)
  ∧ snippets on_topic_session = snippet <$> all_results on_topic_session
  ∧ length (snippets on_topic_session) = length (all_results on_topic_session).
Proof.
  apply (every_returned_snippet_is_pooled one_file json_loads serpapi irigasi
           (Completed on_topic_session)).
  vm_compute. reflexivity.
Defined.

(** C3 does not hold as stated: the third candidate comes without a
    snippet, and its empty snippet is in the pool all the same. *)
Lemma empty_snippet_is_pooled :
  retrieval one_file json_loads serpapi_off_topic irigasi
  = Retrieved (Completed off_topic_session)
  ∧ snippet <$> all_results off_topic_session
    = ["manajemen air"; "kualitas tanah"; ""]
  ∧ snippets off_topic_session = ["manajemen air"; "kualitas tanah"; ""]
  ∧ "" ∈ snippets off_topic_session.
Proof.
  repeat split; try (vm_compute; reflexivity).
  vm_compute. right. right. by left.
Qed.

(** Every source returns nothing: the stream ends with [DONE]. *)
Lemma empty_result_set_witness :
  all_results nothing_session = []
  ∧ generate process_text one_file json_loads serpapi_nothing sort_stable irigasi
    = trace nothing_session ++ [Yield EvDone].
Proof.
  split; [vm_compute; reflexivity|].
  apply (empty_result_set_ends_with_done
           process_text one_file json_loads serpapi_nothing sort_stable irigasi).
  - vm_compute. reflexivity.
  - vm_compute. reflexivity.
Defined.

(** Of the three provider results the one behind the [.html] link is
    dropped: it is not in the result set and not in the batch. *)
Lemma only_pdf_links_witness :
  judul <$> all_results on_topic_session = ["Satu"; "Dua"]
  ∧ Forall (λ r, is_pdf r = true) (all_results on_topic_session)
  ∧ Forall (λ r, is_pdf (result r) = true)
      (sort_stable (scored_results process_text "irigasi" on_topic_session)).
Proof.
  pose proof (only_pdf_links_become_candidates
                process_text one_file json_loads serpapi sort_stable irigasi)
    as (_ & Hset & Hbatch).
  split; [vm_compute; reflexivity|]. split.
  - apply (Hset (Completed on_topic_session)). vm_compute. reflexivity.
  - apply Hbatch; [apply sort_stable_perm|].
    vm_compute. do 3 right. by left.
Defined.

End SampleRuns.

(** * Further properties *)

(** ** What the chain model holds *)

Section ChainContents.

Implicit Types (a : analyzer) (t u : string) (all_terms : list string)
  (d : list (string * nat)).

Lemma adjacent_cons x y all_terms :
  adjacent (x :: y :: all_terms) = (x, y) :: adjacent (y :: all_terms).
Proof. reflexivity. Qed.

Lemma chain_pairs_app l1 x y l2 a :
  chain_pairs (l1 ++ x :: y :: l2) a
  = chain_pairs (y :: l2) (add_link x y (chain_pairs (l1 ++ [x]) a)).
Proof.
  revert a. induction l1 as [|z l1 IH]; intros a; [done|].
  destruct l1 as [|w l1].
  - cbn [app]. by rewrite !chain_pairs_cons.
  - change ((z :: w :: l1) ++ x :: y :: l2)
      with (z :: w :: (l1 ++ x :: y :: l2)).
    change ((z :: w :: l1) ++ [x]) with (z :: w :: (l1 ++ [x])).
    rewrite !chain_pairs_cons. apply (IH (add_link z w a)).
Qed.

(** The pool is one stream: [extend] after [extend] is concatenation. *)
Lemma snippet_terms_of_concat (process_text : string → list string) snippets :
  snippet_terms_of process_text snippets = concat (process_text <$> snippets).
Proof.
  unfold snippet_terms_of.
  assert (∀ acc, foldl (λ acc snippet, acc ++ process_text snippet) acc snippets
                 = acc ++ concat (process_text <$> snippets)) as H.
  { induction snippets as [|snippet snippets IH]; intros acc; cbn.
    - by rewrite app_nil_r.
    - by rewrite IH, app_assoc. }
  apply (H []).
Qed.

(** X1. One more snippet in the pool: the chain is built on, and the last
    term of what came before is linked to the first term of the new
    snippet. *)
Theorem chain_links_across_snippets (process_text : string → list string)
    query snippets snippet a l1 x y l2 :
  process_text query ++ snippet_terms_of process_text snippets = l1 ++ [x] →
  process_text snippet = y :: l2 →
  (build_chains process_text query (snippets ++ [snippet]) a).1
  = chain_terms (y :: l2)
      (add_link x y (build_chains process_text query snippets a).1).
Proof.
  intros Hbefore Hnew. unfold build_chains. cbn [fst].
  rewrite !chain_terms_pairs, Hbefore.
  rewrite snippet_terms_of_concat, fmap_app, concat_app, app_assoc.
  rewrite <- snippet_terms_of_concat, Hbefore. cbn. rewrite app_nil_r, Hnew.
  rewrite <- app_assoc. apply chain_pairs_app.
Qed.

Lemma counter_get_incr u k d :
  counter_get u (counter_incr k d) = counter_get u d + bump k u.
Proof.
  unfold bump. induction d as [|[k' n] d IH]; cbn.
  - destruct (decide (k = u)); lia.
  - destruct (decide (k' = k)) as [->|Hne]; cbn.
    + destruct (decide (k = u)); lia.
    + destruct (decide (k' = u)) as [->|]; [|done].
      rewrite decide_False by done. lia.
Qed.

Lemma counter_keys_incr k d :
  (counter_incr k d).*1 = if decide (k ∈ d.*1) then d.*1 else d.*1 ++ [k].
Proof.
  induction d as [|[k' n] d IH]; cbn.
  - rewrite decide_False; [done|]. apply not_elem_of_nil.
  - destruct (decide (k' = k)) as [->|Hne]; cbn.
    + rewrite decide_True; [done|]. by left.
    + rewrite IH. destruct (decide (k ∈ d.*1)) as [Hin|Hin].
      * rewrite decide_True; [done|]. by right.
      * rewrite decide_False; [done|].
        intros [?|?]%elem_of_cons; by simplify_eq.
Qed.

Lemma counter_wf_incr k d : counter_wf d → counter_wf (counter_incr k d).
Proof.
  intros [Hnodup Hpos]. split.
  - rewrite counter_keys_incr. case_decide; [done|].
    apply NoDup_app. split; [done|]. split; [|apply NoDup_singleton].
    intros x Hx ->%list_elem_of_singleton. done.
  - clear Hnodup. induction Hpos as [|[k' n] d Hn Hpos IH]; cbn.
    + repeat constructor.
    + case_decide; constructor; cbn in *; try done; lia.
Qed.

Lemma counter_key_positive d u :
  Forall (λ p, 0 < p.2) d → u ∈ d.*1 ↔ 0 < counter_get u d.
Proof.
  induction 1 as [|[k n] d Hn Hpos IH]; cbn.
  - split; [by intros ?%elem_of_nil|lia].
  - cbn in Hn. destruct (decide (k = u)) as [->|Hne].
    + split; [done|]. intros _. by left.
    + rewrite <- IH. split.
      * intros [?|?]%elem_of_cons; by simplify_eq.
      * by right.
Qed.

Lemma successor_counts_add_link c n a t :
  successor_counts (add_link c n a) t
  = if decide (c = t) then counter_incr n (successor_counts a t)
    else successor_counts a t.
Proof.
  unfold successor_counts, add_link; cbn [term_details].
  destruct (decide (c = t)) as [->|Hne].
  - rewrite lookup_insert_eq. cbn. by destruct (term_details a !! t).
  - by rewrite lookup_insert_ne.
Qed.

Lemma chain_add_link c n a t :
  default [] (lexical_chains (add_link c n a) !! t)
  = default [] (lexical_chains a !! t) ++ (if decide (c = t) then [n] else []).
Proof.
  unfold add_link; cbn [lexical_chains].
  destruct (decide (c = t)) as [->|Hne].
  - by rewrite lookup_insert_eq.
  - rewrite lookup_insert_ne by done. by rewrite app_nil_r.
Qed.

Lemma bigram_count_cons t u x y all_terms :
  bigram_count t u (x :: y :: all_terms)
  = (if decide (x = t ∧ y = u) then 1 else 0) + bigram_count t u (y :: all_terms).
Proof.
  unfold bigram_count. rewrite adjacent_cons, filter_cons.
  destruct (decide ((x, y) = (t, u))) as [Heq|Hne].
  - simplify_eq. by rewrite decide_True.
  - rewrite decide_False; [done|]. intros [-> ->]. done.
Qed.

Lemma successors_of_cons t x y all_terms :
  successors_of t (x :: y :: all_terms)
  = (if decide (x = t) then [y] else []) ++ successors_of t (y :: all_terms).
Proof.
  unfold successors_of. rewrite adjacent_cons, filter_cons. cbn [fst].
  by destruct (decide (x = t)).
Qed.

Lemma bigram_count_chain_pairs all_terms a t u :
  counter_get u (successor_counts (chain_pairs all_terms a) t)
  = counter_get u (successor_counts a t) + bigram_count t u all_terms.
Proof.
  revert a. induction all_terms as [|x [|y l] IH]; intros a;
    [unfold bigram_count; cbn; lia..|].
  rewrite chain_pairs_cons, IH, bigram_count_cons, successor_counts_add_link.
  destruct (decide (x = t)) as [->|Hne].
  - rewrite counter_get_incr. unfold bump.
    destruct (decide (y = u)) as [->|Hne].
    + rewrite decide_True by done. lia.
    + rewrite decide_False by (intros [_ ?]; done). lia.
  - rewrite decide_False by (intros [? _]; done). lia.
Qed.

Lemma successors_chain_pairs all_terms a t :
  default [] (lexical_chains (chain_pairs all_terms a) !! t)
  = default [] (lexical_chains a !! t) ++ successors_of t all_terms.
Proof.
  revert a. induction all_terms as [|x [|y l] IH]; intros a;
    [unfold successors_of; cbn; by rewrite app_nil_r..|].
  rewrite chain_pairs_cons, IH, successors_of_cons, chain_add_link.
  by rewrite app_assoc.
Qed.

Lemma counter_wf_chain_pairs all_terms a t :
  counter_wf (successor_counts a t) →
  counter_wf (successor_counts (chain_pairs all_terms a) t).
Proof.
  revert a. induction all_terms as [|x [|y l] IH]; intros a Ha; [done..|].
  rewrite chain_pairs_cons. apply IH. rewrite successor_counts_add_link.
  case_decide; [by apply counter_wf_incr|done].
Qed.

(** X2. The count kept for [u] among the connected terms of [t] is the
    number of places of the stream where [u] comes right after [t]; a
    term that never follows [t] has no entry. *)
Theorem connected_count_is_bigram_count all_terms t u :
  let a := chain_terms all_terms new_analyzer in
  counter_get u (successor_counts a t) = bigram_count t u all_terms
  ∧ (u ∈ (successor_counts a t).*1 ↔ 0 < bigram_count t u all_terms).
Proof.
  cbn zeta. rewrite chain_terms_pairs.
  pose proof (bigram_count_chain_pairs all_terms new_analyzer t u) as Hget.
  change (counter_get u (successor_counts new_analyzer t)) with 0 in Hget.
  cbn [Nat.add] in Hget. split; [done|]. rewrite <- Hget.
  apply counter_key_positive.
  apply (counter_wf_chain_pairs all_terms new_analyzer t).
  split; [apply NoDup_nil_2|constructor].
Qed.

(** X3. The chain of [t] lists the terms that follow [t], one per
    occurrence and in stream order, and the counter of [t] is the
    histogram of that list. *)
Theorem chain_lists_successors_in_order all_terms t u :
  let a := chain_terms all_terms new_analyzer in
  default [] (lexical_chains a !! t) = successors_of t all_terms
  ∧ counter_get u (successor_counts a t)
    = length (filter (λ v, v = u) (successors_of t all_terms)).
Proof.
  cbn zeta. rewrite chain_terms_pairs. split.
  - by rewrite successors_chain_pairs.
  - rewrite bigram_count_chain_pairs.
    change (counter_get u (successor_counts new_analyzer t)) with 0.
    cbn [Nat.add]. clear.
    induction all_terms as [|x [|y l] IH]; [done..|].
    rewrite bigram_count_cons, successors_of_cons, filter_app, length_app, IH.
    f_equal. destruct (decide (x = t)) as [->|Hne].
    + rewrite filter_cons, filter_nil.
      destruct (decide (y = u)) as [->|Hne].
      * by rewrite decide_True.
      * by rewrite decide_False by (intros [_ ?]; done).
    + by rewrite decide_False by (intros [? _]; done).
Qed.

(** X4. The connected terms of every term form a well-formed counter: no
    term is listed twice and no count is zero. *)
Theorem connected_terms_is_a_counter all_terms t :
  counter_wf (successor_counts (chain_terms all_terms new_analyzer) t).
Proof.
  rewrite chain_terms_pairs. apply counter_wf_chain_pairs.
  split; [apply NoDup_nil_2|constructor].
Qed.

(** X5. [build_chains] never resets the analyzer: run on an analyzer that
    already holds counts, it adds the links of the new stream to them. *)
Theorem chain_builder_accumulates all_terms a t :
  occurrence_count (chain_terms all_terms a) t
  = occurrence_count a t + followed_positions t all_terms
  ∧ chain_links (chain_terms all_terms a) = chain_links a + (length all_terms - 1)
  ∧ default [] (lexical_chains (chain_terms all_terms a) !! t)
    = default [] (lexical_chains a !! t) ++ successors_of t all_terms.
Proof.
  rewrite chain_terms_pairs, followed_positions_followed.
  split; [apply occurrence_count_chain_pairs|].
  split; [apply links_chain_pairs|apply successors_chain_pairs].
Qed.

(** X6. A term that occurs nowhere before the last place of the stream has
    no statistics at all: count zero, no chain, no connected terms. *)
Theorem last_term_has_no_statistics all_terms t :
  t ∉ take (length all_terms - 1) all_terms →
  let a := chain_terms all_terms new_analyzer in
  occurrence_count a t = 0
  ∧ default [] (lexical_chains a !! t) = []
  ∧ successor_counts a t = [].
Proof.
  intros Hnot. cbn zeta.
  assert (successors_of t all_terms = []) as Hnone.
  { induction all_terms as [|x [|y l] IH]; [done..|].
    rewrite successors_of_cons.
    replace (length (x :: y :: l) - 1) with (S (length (y :: l) - 1)) in Hnot
      by (cbn; lia).
    cbn [take] in Hnot. apply not_elem_of_cons in Hnot as [Hne Hnot].
    rewrite decide_False by done. by apply IH. }
  pose proof (counts_agree_chain_pairs all_terms new_analyzer t
                (counts_agree_new t)) as (Hc & _ & Hl).
  rewrite chain_terms_pairs.
  assert (default [] (lexical_chains new_analyzer !! t) = []) as Hempty by done.
  rewrite successors_chain_pairs, Hnone, Hempty in Hl. cbn in Hl.
  rewrite successors_chain_pairs, Hnone.
  split; [done|]. split; [done|].
  rewrite Hl in Hc. cbn in Hc.
  destruct (successor_counts _ _) as [|[k n] d] eqn:Hd; [done|].
  pose proof (counter_wf_chain_pairs all_terms new_analyzer t) as [_ Hpos].
  { split; [apply NoDup_nil_2|constructor]. }
  rewrite Hd in Hpos. apply Forall_cons in Hpos as [Hn _].
  unfold counter_total in Hc. cbn in *. lia.
Qed.

End ChainContents.

(** ** The score in closed form *)

Section ScoreClosedForm.

Variable process_text : string → list string.

Implicit Types (a : analyzer) (snippet_terms query_terms : list string).

Lemma relevance_loop_closed a snippet_terms score analysis query_terms :
  foldl (relevance_step a snippet_terms) (score, analysis) query_terms
  = (score + sum_list (entry_gain
                         <$> (entry_for a snippet_terms
                                <$> matching_terms snippet_terms query_terms)),
     analysis ++ (entry_for a snippet_terms
                    <$> matching_terms snippet_terms query_terms)).
Proof.
  revert score analysis.
  induction query_terms as [|term query_terms IH]; intros score analysis.
  - cbn. by rewrite app_nil_r, Nat.add_0_r.
  - cbn [foldl]. unfold matching_terms. rewrite filter_cons.
    unfold relevance_step at 2. cbn [fst snd].
    destruct (decide (term ∈ snippet_terms)) as [Hin|Hin].
    + rewrite bool_decide_eq_true_2 by done.
      rewrite connected_loop. rewrite IH. unfold matching_terms.
      cbn [fmap list_fmap sum_list_with app].
      rewrite <- app_assoc. cbn [app]. f_equal.
      unfold entry_gain at 2. unfold entry_for at 2 3.
      unfold occurrence_count, successor_counts.
      cbn [te_score te_connected id]. lia.
    + rewrite bool_decide_eq_false_2 by done. by rewrite IH.
Qed.

(** X7. The score is the sum, over the query terms found in the snippet and
    with duplicates counted, of the occurrence count of the term plus one
    for each of its connected terms found in the snippet; the analysis is
    one entry per such query term, in query order. In particular the
    score is what the returned analysis adds up to. *)
Theorem score_in_closed_form a query_terms snippet :
  let entries :=
    entry_for a (process_text snippet)
      <$> matching_terms (process_text snippet) query_terms in
  calculate_relevance process_text a query_terms snippet
  = (sum_list (entry_gain <$> entries), entries)
  ∧ (calculate_relevance process_text a query_terms snippet).1
    = sum_list (entry_gain
                  <$> (calculate_relevance process_text a query_terms snippet).2).
Proof.
  cbn zeta. unfold calculate_relevance. rewrite relevance_loop_closed.
  by cbn.
Qed.

(** X8. The order of the query terms does not change the score; the
    analysis is rearranged with them. *)
Theorem score_ignores_query_order a q1 q2 snippet :
  q1 ≡ₚ q2 →
  (calculate_relevance process_text a q1 snippet).1
  = (calculate_relevance process_text a q2 snippet).1
  ∧ (calculate_relevance process_text a q1 snippet).2
    ≡ₚ (calculate_relevance process_text a q2 snippet).2.
Proof.
  intros Hperm. unfold calculate_relevance. rewrite !relevance_loop_closed.
  cbn [fst snd app Nat.add]. unfold matching_terms. by rewrite Hperm.
Qed.

(** X9. The snippet is read as a set of terms: two snippets with the same
    terms, in any order and any number, get the same score and the same
    analysis. *)
Theorem score_reads_snippet_as_set a query_terms snippet1 snippet2 :
  (∀ term, term ∈ process_text snippet1 ↔ term ∈ process_text snippet2) →
  calculate_relevance process_text a query_terms snippet1
  = calculate_relevance process_text a query_terms snippet2.
Proof.
  intros Hsame. unfold calculate_relevance. rewrite !relevance_loop_closed.
  cbn [app Nat.add]. unfold matching_terms.
  rewrite (list_filter_iff _ (λ term, term ∈ process_text snippet2)) by done.
  assert (∀ term, entry_for a (process_text snippet1) term
                  = entry_for a (process_text snippet2) term) as Hentry.
  { intros term. unfold entry_for, connected_in. f_equal.
    apply list_filter_iff. intros item. apply Hsame. }
  by rewrite (list_fmap_ext _ _ _ (λ _ term _, Hentry term)).
Qed.

(** X10. When no query term is among the terms of the snippet, and so for an
    empty query or an empty snippet, the score is 0 and the analysis is
    empty. *)
Theorem no_match_scores_zero a query_terms snippet :
  Forall (λ term, term ∉ process_text snippet) query_terms →
  calculate_relevance process_text a query_terms snippet = (0, []).
Proof.
  intros Hnone. unfold calculate_relevance. rewrite relevance_loop_closed.
  assert (matching_terms (process_text snippet) query_terms = []) as ->; [|done].
  unfold matching_terms. induction Hnone as [|term query_terms Hterm _ IH]; [done|].
  by rewrite filter_cons, decide_False.
Qed.

End ScoreClosedForm.

(** ** [process_text] *)

Section ProcessText.

Variable nlp : string → list token.

Lemma lower_char_idempotent c : Py.lower_char (Py.lower_char c) = Py.lower_char c.
Proof. by destruct c as [[] [] [] [] [] [] [] []]. Qed.

Lemma lower_idempotent s : Py.lower (Py.lower s) = Py.lower s.
Proof.
  induction s as [|c s IH]; [done|].
  cbn [Py.lower]. by rewrite lower_char_idempotent, IH.
Qed.

(** X11. [process_text] lower-cases before anything else: two texts that
    differ in case only give the same terms, and so does a text and its
    lower-cased form; every term is the lemma of an alphabetic token that
    is no stop word. *)
Theorem process_text_ignores_case text1 text2 :
  Py.lower text1 = Py.lower text2 →
  process_text_with nlp text1 = process_text_with nlp text2
  ∧ process_text_with nlp (Py.lower text1) = process_text_with nlp text1
  ∧ Forall (λ term, ∃ tok, tok ∈ nlp (Py.lower text1) ∧ lemma_ tok = term
                           ∧ is_alpha tok = true ∧ is_stop tok = false)
      (process_text_with nlp text1).
Proof.
  intros Hcase. unfold process_text_with. rewrite lower_idempotent, Hcase.
  repeat split. rewrite <- Hcase.
  apply Forall_fmap, Forall_forall. intros tok [Hkeep Hin]%list_elem_of_filter.
  exists tok. apply andb_prop_elim in Hkeep as [Ha Hs].
  repeat split; [done| |].
  - by apply Is_true_true.
  - apply negb_prop_elim in Hs. by destruct (is_stop tok).
Qed.

End ProcessText.

(** ** One fetch *)

Section FetchFacts.

Variable serpapi : string → response.

Implicit Types (s : session) (journal : journal_t) (sources : list journal_t).

Lemma collect_articles_closed journal site results articles nama :
  journal !! "nama_jurnal" = Some nama →
  collect_articles journal site results articles
  = Some (articles
          ++ (to_article nama (get_default journal "sinta_rank" (PStr "")) site
                <$> filter (λ r, pdf_result r) results)).
Proof.
  intros Hnama. revert articles.
  induction results as [|r results IH]; intros articles.
  - cbn. by rewrite app_nil_r.
  - cbn [collect_articles]. rewrite filter_cons. fold (pdf_result r).
    destruct (pdf_result r) eqn:Hpdf; cbn [negb].
    + rewrite Hnama, IH, decide_True by done.
      by rewrite <- app_assoc.
    + rewrite IH, decide_False; [done|]. by intros ?.
Qed.

Lemma collect_articles_raises journal site results articles :
  journal !! "nama_jurnal" = None →
  collect_articles journal site results articles = None
  ↔ ∃ r, r ∈ results ∧ pdf_result r = true.
Proof.
  intros Hnama. revert articles.
  induction results as [|r results IH]; intros articles.
  - cbn. split; [done|]. by intros (? & ?%elem_of_nil & _).
  - cbn [collect_articles]. fold (pdf_result r).
    destruct (pdf_result r) eqn:Hpdf; cbn [negb].
    + rewrite Hnama. split; [|done]. intros _. exists r. split; [by left|done].
    + rewrite IH. split.
      * intros (r' & Hin & Hr'). exists r'. split; [by right|done].
      * intros (r' & [->|Hin]%elem_of_cons & Hr'); [congruence|].
        by exists r'.
Qed.

Lemma search_google_closed query journal nama site :
  journal !! "nama_jurnal" = Some nama →
  journal !! "link" = Some site →
  search_google serpapi query journal
  = Some match serpapi (search_query query site) with
         | RespJson (Some results) =>
             to_article nama (get_default journal "sinta_rank" (PStr "")) site
               <$> filter (λ r, pdf_result r) results
         | RespJson None | RespError => []
         end.
Proof.
  intros Hnama Hlink. unfold search_google, on_exception. rewrite Hlink, Hnama.
  destruct (serpapi _) as [|[results|]]; [done| |done].
  by rewrite (collect_articles_closed _ _ _ _ nama).
Qed.

(** X12. A source with a name and a link is always fetched, whatever the
    provider does: a failed request and an answer without
    ["organic_results"] give no candidate; otherwise there is one
    candidate for each result whose link ends with [.pdf], in the order
    of the provider, carrying the name, rank and link of the source. *)
Theorem search_google_candidates query journal nama site :
  journal !! "nama_jurnal" = Some nama →
  journal !! "link" = Some site →
  search_google serpapi query journal
  = Some match serpapi (search_query query site) with
         | RespJson (Some results) =>
             to_article nama (get_default journal "sinta_rank" (PStr "")) site
               <$> filter (λ r, pdf_result r) results
         | RespJson None | RespError => []
         end
  ∧ length (default [] (search_google serpapi query journal))
    ≤ match serpapi (search_query query site) with
      | RespJson (Some results) => length results
      | RespJson None | RespError => 0
      end.
Proof.
  intros Hnama Hlink. rewrite (search_google_closed _ _ nama site) by done.
  split; [done|]. cbn [default from_option id].
  destruct (serpapi _) as [|[results|]]; [done| |done].
  rewrite length_fmap. apply length_filter.
Qed.

(** X13. [search_google] raises exactly when the source has no link, or has
    no name and either the request fails or some result has a [.pdf]
    link. *)
Theorem search_google_raises_iff query journal :
  search_google serpapi query journal = None
  ↔ journal !! "link" = None
    ∨ (journal !! "nama_jurnal" = None
       ∧ ∃ site, journal !! "link" = Some site
           ∧ (serpapi (search_query query site) = RespError
              ∨ ∃ results r, serpapi (search_query query site) = RespJson (Some results)
                             ∧ r ∈ results ∧ pdf_result r = true)).
Proof.
  unfold search_google, on_exception.
  destruct (journal !! "link") as [site|]; [|by split; [left|]].
  destruct (journal !! "nama_jurnal") as [nama|] eqn:Hnama.
  - split; [|by intros [?|[? _]]].
    destruct (serpapi _) as [|[results|]]; [done| |done].
    by rewrite (collect_articles_closed _ _ _ _ nama).
  - destruct (serpapi _) as [|[results|]] eqn:Hresp.
    + split; [|done]. intros _. right. split; [done|]. exists site. eauto.
    + pose proof (collect_articles_raises journal site results [] Hnama) as Hcollect.
      destruct (collect_articles journal site results []) as [found|] eqn:Hc.
      * split; [done|].
        intros [?|(_ & site' & ? & [?|(results' & r & ? & ? & ?)])];
          simplify_eq; [congruence|].
        assert (results' = results) as -> by congruence.
        apply Hcollect. eauto.
      * split; [|done]. intros _. right. split; [done|]. exists site.
        split; [done|]. right. destruct (proj1 Hcollect eq_refl) as (r & ? & ?).
        eauto.
    + split; [done|].
      intros [?|(_ & site' & ? & [?|(results' & r & ? & ? & ?)])];
        simplify_eq; congruence.
Qed.

End FetchFacts.

(** ** The filter on links *)

Section LinkFilter.

Lemma startswith_iff (text prefix : string) :
  Py.startswith text prefix = true ↔ ∃ rest, text = prefix +:+ rest.
Proof.
  revert text. induction prefix as [|c p IH]; intros text.
  - split; [by exists text|done].
  - destruct text as [|b text]; cbn [Py.startswith].
    + split; [done|]. by intros (rest & ?).
    + rewrite andb_true_iff, bool_decide_eq_true, IH. split.
      * intros [-> [rest ->]]. by exists rest.
      * intros (rest & Heq).
        change (String c p +:+ rest) with (String c (p +:+ rest)) in Heq.
        simplify_eq. eauto.
Qed.

Lemma string_app_assoc (s1 s2 s3 : string) :
  (s1 +:+ s2) +:+ s3 = s1 +:+ (s2 +:+ s3).
Proof.
  induction s1 as [|c s1 IH]; [done|].
  change (String c s1 +:+ s2) with (String c (s1 +:+ s2)).
  change (String c (s1 +:+ s2) +:+ s3) with (String c ((s1 +:+ s2) +:+ s3)).
  by rewrite IH.
Qed.

Lemma string_app_nil_r (s1 : string) : s1 +:+ "" = s1.
Proof.
  induction s1 as [|c s1 IH]; [done|].
  change (String c s1 +:+ "") with (String c (s1 +:+ "")). by rewrite IH.
Qed.

Lemma rev_app_acc (s1 acc : string) :
  String.rev_app s1 acc = String.rev s1 +:+ acc.
Proof.
  unfold String.rev. revert acc. induction s1 as [|c s1 IH]; intros acc; [done|].
  cbn [String.rev_app]. rewrite (IH (String c acc)), (IH (String c "")).
  by rewrite string_app_assoc.
Qed.

Lemma rev_cons (c : ascii) (s1 : string) :
  String.rev (String c s1) = String.rev s1 +:+ String c "".
Proof. unfold String.rev at 1. cbn [String.rev_app]. apply rev_app_acc. Qed.

Lemma rev_app_distr (s1 s2 : string) :
  String.rev (s1 +:+ s2) = String.rev s2 +:+ String.rev s1.
Proof.
  induction s1 as [|c s1 IH].
  - change ("" +:+ s2) with s2. by rewrite string_app_nil_r.
  - change (String c s1 +:+ s2) with (String c (s1 +:+ s2)).
    by rewrite !rev_cons, IH, string_app_assoc.
Qed.

Lemma rev_involutive (s1 : string) : String.rev (String.rev s1) = s1.
Proof.
  induction s1 as [|c s1 IH]; [done|].
  by rewrite rev_cons, rev_app_distr, IH.
Qed.

Lemma endswith_iff (text suffix : string) :
  Py.endswith text suffix = true ↔ ∃ stem, text = stem +:+ suffix.
Proof.
  unfold Py.endswith. rewrite startswith_iff. split.
  - intros (rest & Hrev). exists (String.rev rest).
    by rewrite <- (rev_involutive text), Hrev, rev_app_distr, rev_involutive.
  - intros (stem & ->). exists (String.rev stem). apply rev_app_distr.
Qed.

(** X14. A provider result becomes a candidate exactly when its link,
    lower-cased, is some stem followed by [.pdf]; a result without a
    link never does. *)
Theorem pdf_result_iff (r : organic) :
  (pdf_result r = true
   ↔ ∃ url stem, o_link r = Some url ∧ Py.lower url = stem +:+ ".pdf")
  ∧ (o_link r = None → pdf_result r = false).
Proof.
  unfold pdf_result. split; [|by intros ->].
  rewrite endswith_iff. destruct (o_link r) as [url|]; cbn.
  - split.
    + intros (stem & ?). eauto.
    + intros (url' & stem & ? & ?). simplify_eq. eauto.
  - split; [|by intros (? & ? & ? & _)].
    intros (stem & Hstem). by destruct stem as [|? [|? [|? [|? ?]]]].
Qed.

End LinkFilter.

(** ** The two retrieval loops as one loop over their sources *)

Section SourceLoops.

Variable serpapi : string → response.

Implicit Types (s : session) (journal : journal_t) (sources : list journal_t).

Lemma after_sources_nil topic s : after_sources serpapi topic [] s = s.
Proof. destruct s. unfold after_sources. cbn. by rewrite !app_nil_r. Qed.

Lemma after_sources_app topic sources1 sources2 s :
  after_sources serpapi topic (sources1 ++ sources2) s
  = after_sources serpapi topic sources2 (after_sources serpapi topic sources1 s).
Proof.
  unfold after_sources. cbn [all_results snippets trace].
  by rewrite !bind_app, fmap_app, !app_assoc.
Qed.

Lemma after_sources_cons topic journal sources s :
  after_sources serpapi topic (journal :: sources) s
  = after_sources serpapi topic sources (after_sources serpapi topic [journal] s).
Proof. apply (after_sources_app topic [journal]). Qed.

Lemma visit_fetchable topic journal s :
  fetchable journal →
  visit serpapi topic journal (default PNone (journal !! "sinta_rank")) s
  = Completed (after_sources serpapi topic [journal] s).
Proof.
  intros [[nama Hnama] [site Hlink]]. unfold visit. rewrite Hnama.
  rewrite (search_google_closed serpapi topic journal nama site Hnama Hlink).
  unfold after_sources, announce, emit, extend_results.
  cbn [all_results snippets trace mbind list_bind default from_option id].
  rewrite Hnama. cbn [from_option id].
  rewrite (search_google_closed serpapi topic journal nama site Hnama Hlink).
  cbn [from_option id]. by rewrite !app_nil_r, <- !app_assoc.
Qed.

Lemma visit_no_link topic journal s :
  is_Some (journal !! "nama_jurnal") → journal !! "link" = None →
  visit serpapi topic journal (default PNone (journal !! "sinta_rank")) s
  = Aborted (aborted_at serpapi topic [] journal s).
Proof.
  intros [nama Hnama] Hlink. unfold visit, search_google. rewrite Hnama, Hlink.
  unfold aborted_at. rewrite after_sources_nil.
  unfold announce, emit. cbn [all_results snippets trace take].
  rewrite Hnama. cbn [default from_option id]. by rewrite <- app_assoc.
Qed.

Lemma fetch_all_app topic sources1 sources2 s :
  fetch_all serpapi topic (sources1 ++ sources2) s
  = match fetch_all serpapi topic sources1 s with
    | Completed s' => fetch_all serpapi topic sources2 s'
    | Aborted s' => Aborted s'
    end.
Proof.
  revert s. induction sources1 as [|journal sources1 IH]; intros s; [done|].
  cbn [app fetch_all]. destruct (visit _ _ _ _ _); [apply IH|done].
Qed.

Lemma fetch_all_fetchable topic sources s :
  Forall fetchable sources →
  fetch_all serpapi topic sources s
  = Completed (after_sources serpapi topic sources s).
Proof.
  intros Hall. revert s. induction Hall as [|journal sources Hj _ IH]; intros s.
  - by rewrite after_sources_nil.
  - cbn [fetch_all]. rewrite visit_fetchable by done.
    by rewrite IH, <- after_sources_cons.
Qed.

Lemma explicit_sources_fetchable selected :
  Forall fetchable (explicit_sources selected).
Proof.
  unfold explicit_sources. apply Forall_fmap, Forall_forall. intros journal _.
  split; [rewrite ensure_keys_nama|rewrite ensure_keys_link]; eauto.
Qed.

Lemma ensure_keys_rank_default journal :
  default PNone (ensure_keys journal !! "sinta_rank")
  = get_default (ensure_keys journal) "sinta_rank" PNone.
Proof. done. Qed.

Lemma explicit_loop_fetch_all topic (selected : list journal_t) s :
  explicit_loop serpapi topic (JObject <$> selected) s
  = fetch_all serpapi topic (explicit_sources selected) s.
Proof.
  revert s. induction selected as [|journal selected IH]; intros s; [done|].
  cbn [fmap list_fmap explicit_loop]. unfold explicit_sources. rewrite filter_cons.
  destruct (get_falsy journal "nama_jurnal" && get_falsy journal "link") eqn:Hskip.
  - rewrite decide_False by done. apply IH.
  - rewrite decide_True by done. cbn [fmap list_fmap fetch_all].
    rewrite ensure_keys_rank_default.
    destruct (visit _ _ _ _ _); [apply IH|done].
Qed.

Lemma group_loop_fetch_all topic rank journals s :
  group_loop serpapi topic rank journals s
  = fetch_all serpapi topic
      ((λ journal, <["sinta_rank" := PStr rank]> journal)
         <$> filter (λ journal, get_falsy journal "nama_jurnal" = false) journals)
      s.
Proof.
  revert s. induction journals as [|journal journals IH]; intros s; [done|].
  cbn [group_loop]. rewrite filter_cons.
  destruct (get_falsy journal "nama_jurnal") eqn:Hskip.
  - rewrite decide_False by done. apply IH.
  - rewrite decide_True by done. cbn [fmap list_fmap fetch_all].
    rewrite lookup_insert_eq. cbn [default from_option id].
    destruct (visit _ _ _ _ _); [apply IH|done].
Qed.

Lemma catalog_loop_fetch_all topic selected_rank data s :
  catalog_loop serpapi topic selected_rank data s
  = fetch_all serpapi topic (catalog_sources selected_rank data) s.
Proof.
  revert s. induction data as [|[rank journals] data IH]; intros s; [done|].
  cbn [catalog_loop]. unfold catalog_sources. rewrite bind_cons.
  cbn [fst snd]. unfold group_selected.
  destruct (Py.startswith rank "SINTA_" || bool_decide (rank = "NON_SINTA"));
    cbn [negb andb]; [|apply IH].
  destruct (group_matches selected_rank rank); cbn [negb]; [|apply IH].
  rewrite fetch_all_app, <- group_loop_fetch_all.
  destruct (group_loop _ _ _ _ _); [apply IH|done].
Qed.

(** X15. Both branches of the generator are one and the same loop, run over
    the sources each branch selects: the entries of the explicit list
    that are not skipped, keys ensured; or the named entries of the
    selected groups of the catalog, group by group in file order, each
    stamped with its group. *)
Theorem retrieval_loops_are_one_loop topic (selected : list journal_t)
    selected_rank data s :
  explicit_loop serpapi topic (JObject <$> selected) s
  = fetch_all serpapi topic (explicit_sources selected) s
  ∧ catalog_loop serpapi topic selected_rank data s
    = fetch_all serpapi topic (catalog_sources selected_rank data) s.
Proof. split; [apply explicit_loop_fetch_all|apply catalog_loop_fetch_all]. Qed.

Lemma explicit_loop_items topic (items : list json_item) s :
  explicit_loop serpapi topic items s
  = (if forallb is_object items then Completed else Aborted)
      (after_sources serpapi topic (explicit_sources (objects_before items)) s).
Proof.
  revert s. induction items as [|[journal|] items IH]; intros s.
  - cbn. by rewrite after_sources_nil.
  - cbn [explicit_loop forallb is_object objects_before andb].
    unfold explicit_sources. rewrite filter_cons.
    destruct (get_falsy journal "nama_jurnal" && get_falsy journal "link") eqn:Hskip.
    + rewrite decide_False by done. apply IH.
    + rewrite decide_True by done. cbn [fmap list_fmap].
      rewrite <- ensure_keys_rank_default, visit_fetchable.
      * rewrite IH. unfold explicit_sources. by rewrite <- after_sources_cons.
      * split; [rewrite ensure_keys_nama|rewrite ensure_keys_link]; eauto.
  - cbn. by rewrite after_sources_nil.
Qed.

Lemma objects_before_objects (selected : list journal_t) :
  objects_before (JObject <$> selected) = selected
  ∧ forallb is_object (JObject <$> selected) = true.
Proof.
  induction selected as [|journal selected [IH1 IH2]]; [done|].
  cbn [fmap list_fmap objects_before forallb is_object andb] in *.
  by rewrite IH1, IH2.
Qed.

(** X16. In explicit mode the loop runs to its end exactly when every
    element of the list is an object, whatever the provider does: each
    object that is not skipped is announced, fetched and followed by a
    delay, in list order, and what its fetch returns is appended. An
    element that is no object stops the generator where it stands: the
    objects before it have been fetched, nothing after it is. *)
Theorem explicit_mode_stops_at_non_object topic (items : list json_item) s :
  explicit_loop serpapi topic items s
  = (if forallb is_object items then Completed else Aborted)
      (after_sources serpapi topic (explicit_sources (objects_before items)) s).
Proof. apply explicit_loop_items. Qed.

Lemma announce_ensured topic journal :
  announce topic (ensure_keys journal)
  = [Yield (EvProgress (announced_name journal) (announced_rank journal));
     Search topic (ensure_keys journal);
     Sleep].
Proof.
  unfold announce, announced_name, announced_rank, get_default.
  rewrite ensure_keys_nama, ensure_keys_rank. unfold get_default. cbn.
  by destruct (journal !! "nama_jurnal").
Qed.

(** C8, as the code has it. In explicit mode, over a list of objects,
    the loop runs to its end and does this and no more: an entry whose
    name and URL are each missing or empty is skipped, with no progress
    event and no fetch; every other entry is announced, fetched under its
    ensured keys and followed by a delay, in list order. It is announced
    under its URL when it has no name key and under ["SELECTED"] when it
    has no rank key; a name or a rank key that is there is kept whatever
    its value, an empty one too. *)
Theorem explicit_source_normalization topic (selected : list journal_t) s :
  explicit_loop serpapi topic (JObject <$> selected) s
  = Completed (session_of (explicit_loop serpapi topic (JObject <$> selected) s))
  ∧ trace (session_of (explicit_loop serpapi topic (JObject <$> selected) s))
    = trace s
      ++ (filter (λ journal,
                    get_falsy journal "nama_jurnal" && get_falsy journal "link" = false)
                 selected
          ≫= λ journal,
               [Yield (EvProgress (announced_name journal) (announced_rank journal));
                Search topic (ensure_keys journal);
                Sleep])
  ∧ ∀ journal,
      ensure_keys journal !! "nama_jurnal" = Some (announced_name journal)
      ∧ ensure_keys journal !! "sinta_rank" = Some (announced_rank journal)
      ∧ (∀ url, journal !! "nama_jurnal" = None → journal !! "link" = Some url →
           announced_name journal = url)
      ∧ (journal !! "sinta_rank" = None → announced_rank journal = PStr "SELECTED")
      ∧ (∀ nama, journal !! "nama_jurnal" = Some nama → announced_name journal = nama)
      ∧ (∀ rank, journal !! "sinta_rank" = Some rank → announced_rank journal = rank).
Proof.
  rewrite explicit_loop_items.
  destruct (objects_before_objects selected) as [-> ->]. cbn [session_of].
  split; [done|]. split.
  - unfold after_sources, explicit_sources. cbn [trace]. f_equal.
    rewrite list_fmap_bind.
    induction (filter _ selected) as [|journal kept IH]; [done|].
    rewrite !bind_cons, IH. cbn [compose]. by rewrite announce_ensured.
  - intros journal. unfold announced_name, announced_rank.
    rewrite ensure_keys_nama, ensure_keys_rank. unfold get_default.
    split; [|split; [done|split; [|split; [|split]]]].
    + destruct (journal !! "nama_jurnal"); reflexivity.
    + intros url Hn Hl. rewrite Hn, Hl. reflexivity.
    + intros Hr. rewrite Hr. reflexivity.
    + intros nama Hn. rewrite Hn. reflexivity.
    + intros rank Hr. rewrite Hr. reflexivity.
Qed.

Lemma catalog_sources_named selected_rank data :
  Forall (λ journal, is_Some (journal !! "nama_jurnal"))
    (catalog_sources selected_rank data).
Proof.
  unfold catalog_sources. apply Forall_bind, Forall_forall. intros [rank journals] _.
  unfold compose. cbn [fst snd].
  destruct (group_selected selected_rank rank); [|constructor].
  apply Forall_fmap, Forall_forall. intros journal [Hnamed _]%list_elem_of_filter.
  cbn. rewrite lookup_insert_ne by done.
  unfold get_falsy in Hnamed. by destruct (journal !! "nama_jurnal").
Qed.

(** X17. In catalog mode the loop runs to its end when every selected entry
    has a link: the trace and the result set are then those of the
    selected sources taken in order. *)
Theorem catalog_mode_completes topic selected_rank data s :
  Forall (λ journal, is_Some (journal !! "link"))
    (catalog_sources selected_rank data) →
  catalog_loop serpapi topic selected_rank data s
  = Completed (after_sources serpapi topic (catalog_sources selected_rank data) s).
Proof.
  intros Hlinks. rewrite catalog_loop_fetch_all. apply fetch_all_fetchable.
  pose proof (catalog_sources_named selected_rank data) as Hnamed.
  rewrite Forall_forall in Hlinks, Hnamed. apply Forall_forall.
  intros journal Hin. split; auto.
Qed.

(** X18. In catalog mode a named entry without a link stops the generator:
    the entry is announced and asked for, then the [KeyError] of
    [journal_info['link']] ends the stream; the sources after it are
    never fetched and what was retrieved before it is never sent. *)
Theorem catalog_entry_without_link_aborts topic selected_rank data s
    sources1 journal sources2 :
  catalog_sources selected_rank data = sources1 ++ journal :: sources2 →
  Forall (λ journal, is_Some (journal !! "link")) sources1 →
  journal !! "link" = None →
  catalog_loop serpapi topic selected_rank data s
  = Aborted (aborted_at serpapi topic sources1 journal s).
Proof.
  intros Hsplit Hlinks Hnone.
  pose proof (catalog_sources_named selected_rank data) as Hnamed.
  rewrite Hsplit in Hnamed. apply Forall_app in Hnamed as [Hnamed1 Hnamed2].
  apply Forall_cons in Hnamed2 as [Hjournal _].
  rewrite catalog_loop_fetch_all, Hsplit, fetch_all_app.
  rewrite fetch_all_fetchable.
  - cbn [fetch_all]. rewrite visit_no_link by done.
    unfold aborted_at. by rewrite !after_sources_nil.
  - rewrite Forall_forall in Hlinks, Hnamed1. apply Forall_forall.
    intros j Hin. split; auto.
Qed.

End SourceLoops.

(** ** Source descriptors and rank filters *)

Section Descriptors.

Implicit Types (journal : journal_t) (k f : string) (v : pyval).

Lemma setdefault_keeps k' dflt journal k v :
  journal !! k = Some v → setdefault k' dflt journal !! k = Some v.
Proof.
  intros Hk. unfold setdefault. destruct (journal !! k') eqn:Hk'; [done|].
  rewrite lookup_insert_ne; [done|]. intros ->. congruence.
Qed.

Lemma setdefault_present k dflt journal :
  is_Some (journal !! k) → setdefault k dflt journal = journal.
Proof. intros [v Hv]. unfold setdefault. by rewrite Hv. Qed.

(** X19. [ensure_keys] only adds: a key that is present keeps its value, a
    key other than the three is left as it is, and ensuring the keys a
    second time changes nothing. *)
Theorem ensure_keys_only_adds journal :
  (∀ k v, journal !! k = Some v → ensure_keys journal !! k = Some v)
  ∧ (∀ k, k ∉ ["nama_jurnal"; "link"; "sinta_rank"] →
       ensure_keys journal !! k = journal !! k)
  ∧ ensure_keys (ensure_keys journal) = ensure_keys journal.
Proof.
  split; [|split].
  - intros k v Hk. unfold ensure_keys. by repeat apply setdefault_keeps.
  - intros k Hk. unfold ensure_keys.
    rewrite !setdefault_lookup_ne; [done|..]; intros <-; apply Hk;
      repeat constructor.
  - unfold ensure_keys at 1.
    rewrite (setdefault_present "nama_jurnal")
      by (rewrite ensure_keys_nama; eauto).
    rewrite (setdefault_present "link") by (rewrite ensure_keys_link; eauto).
    apply setdefault_present. rewrite ensure_keys_rank. eauto.
Qed.

(** X20. A rank filter that is not empty selects at most one group key. *)
Theorem rank_filter_selects_at_most_one_group f k1 k2 :
  Py.nonempty f = true →
  group_matches (Some f) k1 = true → group_matches (Some f) k2 = true →
  k1 = k2.
Proof.
  intros Hf. unfold group_matches. cbn [from_option default id]. rewrite Hf.
  cbn [negb]. destruct (bool_decide _).
  - intros ?%bool_decide_eq_true ?%bool_decide_eq_true. congruence.
  - destruct (Py.isdigit _); [|done].
    intros ?%bool_decide_eq_true ?%bool_decide_eq_true. congruence.
Qed.

Lemma group_matches_unknown f k :
  Py.nonempty f = true →
  Py.lower (Py.strip f) ∉ ["non"; "nonsinta"; "non_sinta"; "non-sinta"] →
  Py.isdigit (Py.lower (Py.strip f)) = false →
  group_matches (Some f) k = false.
Proof.
  intros Hf Hsentinel Hdigit.
  unfold group_matches. cbn [from_option default id]. rewrite Hf. cbn [negb].
  by rewrite bool_decide_eq_false_2, Hdigit.
Qed.

End Descriptors.

(** ** The stream as a whole *)

Section StreamFacts.

Variable process_text : string → list string.
Variable read_json : string → option (option catalog).
Variable json_loads : string → option json_doc.
Variable serpapi : string → response.
Variable sort_values : list scored → list scored.

Implicit Types (s : session) (req : request).

Lemma finish_terminal topic s :
  terminal_event (finish process_text sort_values topic s) = true.
Proof. rewrite finish_cases. by destruct (all_results s). Qed.

(** X21. The stream of a request is a run of progress events, fetches and
    delays, closed by at most one terminal event, which comes last;
    nothing follows a terminal event. *)
Theorem stream_ends_with_its_terminal_event req :
  ∃ pre,
    Forall (λ x, retrieval_action x = true) pre
    ∧ (generate process_text read_json json_loads serpapi sort_values req = pre
       ∨ ∃ e, terminal_event e = true
              ∧ generate process_text read_json json_loads serpapi sort_values req
                = pre ++ [Yield e]).
Proof.
  unfold generate.
  destruct (retrieval read_json json_loads serpapi req) as [| |[s|s]] eqn:Hr.
  - exists []. split; [constructor|]. right. by exists EvNoCatalog.
  - exists []. split; [constructor|]. right. by exists EvBadSources.
  - destruct (retrieval_session _ _ _ _ _ Hr) as [(_ & _ & Htrace) _].
    exists (trace s). split; [done|]. right.
    exists (finish process_text sort_values (topic req) s).
    split; [apply finish_terminal|done].
  - destruct (retrieval_session _ _ _ _ _ Hr) as [(_ & _ & Htrace) _].
    exists (trace s). split; [done|]. by left.
Qed.

(** X22. With an explicit source list the rank filter and the contents of
    the catalog play no part: two requests with the same topic and the
    same list get the same stream, whatever their rank filters and
    whichever catalog files load. *)
Theorem explicit_mode_ignores_rank_and_catalog
    (read_json' : string → option (option catalog)) req rank' :
  from_option Py.nonempty false (sources_json req) = true →
  is_Some (journals_data read_json) → is_Some (journals_data read_json') →
  generate process_text read_json' json_loads serpapi sort_values
    {| topic := topic req; sinta_rank := rank'; sources_json := sources_json req |}
  = generate process_text read_json json_loads serpapi sort_values req.
Proof.
  intros Hexplicit [data Hdata] [data' Hdata'].
  unfold generate, retrieval. cbn [topic sinta_rank sources_json].
  by rewrite Hdata, Hdata', Hexplicit.
Qed.

(** X23. The malformed-sources error is yielded exactly when a catalog loads,
    the source list is not empty and it does not parse to a list; it is
    then the only event and nothing is fetched. *)
Theorem malformed_sources_is_fatal req :
  (Yield EvBadSources
     ∈ generate process_text read_json json_loads serpapi sort_values req
   ↔ is_Some (journals_data read_json)
     ∧ from_option Py.nonempty false (sources_json req) = true
     ∧ ∀ selected,
         json_loads (default "" (sources_json req)) ≠ Some (JArray selected))
  ∧ (Yield EvBadSources
       ∈ generate process_text read_json json_loads serpapi sort_values req →
     generate process_text read_json json_loads serpapi sort_values req
     = [Yield EvBadSources]).
Proof.
  assert (retrieval read_json json_loads serpapi req = BadSources
          ↔ is_Some (journals_data read_json)
            ∧ from_option Py.nonempty false (sources_json req) = true
            ∧ ∀ selected,
                json_loads (default "" (sources_json req)) ≠ Some (JArray selected))
    as Hbad.
  { unfold retrieval. destruct (journals_data read_json) as [data|].
    - destruct (from_option Py.nonempty false (sources_json req)).
      + destruct (json_loads _) as [[selected|]|].
        * split; [done|]. intros (_ & _ & Hno). by destruct (Hno selected).
        * split; [|done]. intros _. split; [eauto|]. done.
        * split; [|done]. intros _. split; [eauto|]. done.
      + split; [done|]. by intros (_ & ? & _).
    - split; [done|]. by intros ([? ?] & _). }
  assert (Yield EvBadSources
            ∈ generate process_text read_json json_loads serpapi sort_values req
          → retrieval read_json json_loads serpapi req = BadSources) as Hin.
  { intros Hin%run_events.
    destruct (retrieval read_json json_loads serpapi req) as [| |[s|s]];
      [done|done|..].
    - destruct Hin as [(? & ? & ?)|Hfin]; [done|].
      rewrite finish_cases in Hfin. by destruct (all_results s).
    - by destruct Hin as (? & ? & ?). }
  split; [split|].
  - intros ?. by apply Hbad, Hin.
  - intros Hcond%Hbad. unfold generate. rewrite Hcond. by left.
  - intros Hr%Hin. unfold generate. by rewrite Hr.
Qed.

Lemma catalog_sources_unknown f data :
  Py.nonempty f = true →
  Py.lower (Py.strip f) ∉ ["non"; "nonsinta"; "non_sinta"; "non-sinta"] →
  Py.isdigit (Py.lower (Py.strip f)) = false →
  catalog_sources (Some f) data = [].
Proof.
  intros Hf Hsentinel Hdigit. unfold catalog_sources.
  induction data as [|[rank journals] data IH]; [done|].
  rewrite bind_cons, IH. cbn [fst snd]. unfold group_selected.
  by rewrite (group_matches_unknown f rank Hf Hsentinel Hdigit), andb_false_r.
Qed.

(** X24. In catalog mode an unknown rank filter is no error: no source is
    announced or fetched and the stream is the [DONE] event alone. *)
Theorem unknown_rank_filter_ends_with_done req f :
  is_Some (journals_data read_json) →
  from_option Py.nonempty false (sources_json req) = false →
  sinta_rank req = Some f →
  Py.nonempty f = true →
  Py.lower (Py.strip f) ∉ ["non"; "nonsinta"; "non_sinta"; "non-sinta"] →
  Py.isdigit (Py.lower (Py.strip f)) = false →
  generate process_text read_json json_loads serpapi sort_values req
  = [Yield EvDone].
Proof.
  intros [data Hdata] Hcatalog Hrank Hf Hsentinel Hdigit.
  unfold generate, retrieval. rewrite Hdata, Hcatalog, Hrank.
  rewrite catalog_loop_fetch_all, catalog_sources_unknown by done.
  cbn [fetch_all]. by rewrite finish_cases.
Qed.

(** X25. The whole stream in explicit mode: when the catalog loads and
    the list parses, the generator announces and fetches the objects that
    are not skipped, in list order, up to the first element that is no
    object. When every element is an object the terminal event follows;
    otherwise the stream ends there, with no terminal event. *)
Theorem explicit_mode_stream req (items : list json_item) :
  is_Some (journals_data read_json) →
  from_option Py.nonempty false (sources_json req) = true →
  json_loads (default "" (sources_json req)) = Some (JArray items) →
  generate process_text read_json json_loads serpapi sort_values req
  = (explicit_sources (objects_before items) ≫= announce (topic req))
    ++ (if forallb is_object items
        then [Yield (finish process_text sort_values (topic req)
                       (after_sources serpapi (topic req)
                          (explicit_sources (objects_before items))
                          empty_session))]
        else []).
Proof.
  intros [data Hdata] Hexplicit Hparse.
  unfold generate, retrieval. rewrite Hdata, Hexplicit, Hparse.
  rewrite explicit_loop_items.
  destruct (forallb is_object items); [done|].
  cbn [after_sources trace empty_session app]. by rewrite app_nil_r.
Qed.

End StreamFacts.

(** ** The [/journals] route *)

Section JournalsFacts.

Variable read_listing : string → option (option listing).

Implicit Types (data : listing) (k : string) (v : json_value).

Lemma ordered_keys_closed data :
  ordered_keys data = filter (λ k, is_Some (data !! k)) known_groups.
Proof.
  unfold ordered_keys, ordered_step, known_groups. cbn [seq foldl].
  assert ("SINTA_" +:+ pretty 1 = "SINTA_1") as -> by (vm_compute; reflexivity).
  assert ("SINTA_" +:+ pretty 2 = "SINTA_2") as -> by (vm_compute; reflexivity).
  assert ("SINTA_" +:+ pretty 3 = "SINTA_3") as -> by (vm_compute; reflexivity).
  assert ("SINTA_" +:+ pretty 4 = "SINTA_4") as -> by (vm_compute; reflexivity).
  assert ("SINTA_" +:+ pretty 5 = "SINTA_5") as -> by (vm_compute; reflexivity).
  assert ("SINTA_" +:+ pretty 6 = "SINTA_6") as -> by (vm_compute; reflexivity).
  rewrite !filter_cons, filter_nil.
  repeat (destruct (decide (is_Some (data !! _)))); reflexivity.
Qed.

Lemma dict_set_fresh k v (d : list (string * json_value)) :
  k ∉ d.*1 → dict_set k v d = d ++ [(k, v)].
Proof.
  induction d as [|[k' v'] d IH]; intros Hk; [done|].
  cbn in *. apply not_elem_of_cons in Hk as [Hne Hk].
  rewrite decide_False by done. by rewrite IH.
Qed.

Lemma dict_fill (value : string → json_value) (keys : list string)
    (d : list (string * json_value)) :
  NoDup (d.*1 ++ keys) →
  foldl (λ result k, dict_set k (value k) result) d keys
  = d ++ ((λ k, (k, value k)) <$> keys).
Proof.
  revert d. induction keys as [|k keys IH]; intros d Hnodup.
  - by rewrite app_nil_r.
  - cbn [foldl]. apply NoDup_app in Hnodup as (Hd & Hdisj & Hkeys).
    rewrite dict_set_fresh by (intros Hin; apply (Hdisj _ Hin); by left).
    rewrite IH.
    + by rewrite <- app_assoc.
    + rewrite fmap_app. cbn. rewrite <- app_assoc. cbn.
      apply NoDup_app. split; [done|]. split; [done|]. done.
Qed.

Lemma known_groups_nodup : NoDup ("catatan" :: known_groups).
Proof. apply (bool_decide_unpack _). by vm_compute. Qed.

Lemma listed_keys_nodup data :
  NoDup ("catatan" :: filter (λ k, is_Some (data !! k)) known_groups).
Proof.
  pose proof known_groups_nodup as [Hnote Hgroups]%NoDup_cons.
  apply NoDup_cons. split; [|by apply NoDup_filter].
  by intros [_ Hin]%list_elem_of_filter.
Qed.

Lemma journals_result_closed data :
  journals_result data
  = ("catatan", default (JText "") (data !! "catatan"))
    :: ((λ k, (k, default (JGroup []) (data !! k)))
          <$> filter (λ k, is_Some (data !! k)) known_groups).
Proof.
  unfold journals_result. rewrite ordered_keys_closed.
  rewrite (dict_fill (λ k, default (JGroup []) (data !! k))); [done|].
  cbn [fmap list_fmap fst app]. apply listed_keys_nodup.
Qed.

Lemma insert_by_key_perm x (l : list (string * json_value)) :
  insert_by_key x l ≡ₚ x :: l.
Proof.
  induction l as [|y l IH]; [done|].
  cbn. destruct (String.leb x.1 y.1); [done|].
  rewrite IH. apply Permutation_swap.
Qed.

(** [jsonify] only rearranges the items of the object. *)
Lemma jsonify_perm (result : list (string * json_value)) : jsonify result ≡ₚ result.
Proof.
  unfold jsonify. induction result as [|x result IH]; [done|].
  cbn. by rewrite insert_by_key_perm, IH.
Qed.

Lemma jsonify_journals_result data :
  jsonify (journals_result data)
  = ((λ k, (k, default (JGroup []) (data !! k)))
       <$> filter (λ k, is_Some (data !! k)) sorted_groups)
    ++ [("catatan", default (JText "") (data !! "catatan"))].
Proof.
  rewrite journals_result_closed. unfold known_groups, sorted_groups.
  rewrite !filter_cons, !filter_nil.
  repeat (destruct (decide (is_Some (data !! _)))); reflexivity.
Qed.

(** X26. The route answers 404 exactly when no catalog file opens or
    the first that opens holds [null]. Otherwise it answers with the
    object written by [jsonify], keys sorted: those of [NON_SINTA] and
    [SINTA_1] to [SINTA_6] that the file has, in that order and each with
    the value the file gives it, and the note last, the empty text when
    the file has none. *)
Theorem journals_lists_known_groups_in_order :
  (journals read_listing = NotFound
   ↔ read_listing "list_journal_from_list_html.json" = Some None
     ∨ (read_listing "list_journal_from_list_html.json" = None
        ∧ (read_listing "list_journal.json" = None
           ∨ read_listing "list_journal.json" = Some None)))
  ∧ ∀ data,
      first_listing read_listing
        ["list_journal_from_list_html.json"; "list_journal.json"] = Some data →
      journals read_listing
      = Listed (((λ k, (k, default (JGroup []) (data !! k)))
                   <$> filter (λ k, is_Some (data !! k)) sorted_groups)
                ++ [("catatan", default (JText "") (data !! "catatan"))]).
Proof.
  split.
  - unfold journals. cbn [first_listing].
    destruct (read_listing "list_journal_from_list_html.json") as [[data|]|].
    + split; [done|]. by intros [?|[? _]].
    + split; [by left|done].
    + destruct (read_listing "list_journal.json") as [[data|]|].
      * split; [done|]. by intros [?|[_ [?|?]]].
      * split; [|done]. intros _. right. split; [done|]. by right.
      * split; [|done]. intros _. right. split; [done|]. by left.
  - intros data Hdata. unfold journals. rewrite Hdata.
    by rewrite jsonify_journals_result.
Qed.

(** X27. The route lists nothing else: every key of its answer is the note or
    one of the seven groups, no key comes twice, and a group is listed
    with the very value of the file. A group that [/search] selects when
    no rank filter is given, one whose key starts with [SINTA_], is left
    out of the listing unless it is one of [SINTA_1] to [SINTA_6]. *)
Theorem journals_lists_nothing_else data :
  NoDup (journals_result data).*1
  ∧ (∀ k v, (k, v) ∈ journals_result data →
       (k = "catatan" ∧ v = default (JText "") (data !! "catatan"))
       ∨ (k ∈ known_groups ∧ data !! k = Some v))
  ∧ (∀ k, Py.startswith k "SINTA_" = true → k ∉ known_groups →
       group_selected None k = true ∧ k ∉ (journals_result data).*1).
Proof.
  rewrite journals_result_closed. split; [|split].
  - cbn [fmap list_fmap fst]. rewrite <- list_fmap_compose.
    rewrite (list_fmap_ext _ id _ (λ _ _ _, eq_refl)), list_fmap_id.
    apply listed_keys_nodup.
  - intros k v [Heq|Hin]%elem_of_cons.
    + left. by simplify_eq.
    + right. apply list_elem_of_fmap in Hin as (k' & Heq & [[v' Hv'] Hin]%list_elem_of_filter).
      simplify_eq. split; [done|]. by rewrite Hv'.
  - intros k Hprefix Hnot. split.
    + unfold group_selected, group_matches. cbn [from_option negb].
      by rewrite Hprefix.
    + cbn [fmap list_fmap fst]. rewrite <- list_fmap_compose.
      rewrite (list_fmap_ext _ id _ (λ _ _ _, eq_refl)), list_fmap_id.
      intros [->|[_ Hin]%list_elem_of_filter]%elem_of_cons; done.
Qed.

End JournalsFacts.

(** ** More runs on the sample collaborators *)

Section DemoRuns.

Import Sample Demo.

Lemma chain_links_across_snippets_witness :
  (build_chains process_text "irigasi" (["sistem irigasi"] ++ ["air bersih"])
     new_analyzer).1
  = chain_terms ["air"; "bersih"]
      (add_link "irigasi" "air"
         (build_chains process_text "irigasi" ["sistem irigasi"] new_analyzer).1).
Proof.
  apply (chain_links_across_snippets process_text "irigasi" ["sistem irigasi"]
           "air bersih" new_analyzer ["irigasi"; "sistem"] "irigasi" "air"
           ["bersih"]); vm_compute; reflexivity.
Defined.

Lemma last_term_has_no_statistics_witness :
  occurrence_count (chain_terms ["irigasi"; "sistem"; "air"] new_analyzer) "air" = 0
  ∧ default []
      (lexical_chains (chain_terms ["irigasi"; "sistem"; "air"] new_analyzer)
         !! "air") = []
  ∧ successor_counts (chain_terms ["irigasi"; "sistem"; "air"] new_analyzer) "air"
    = [].
Proof.
  apply (last_term_has_no_statistics ["irigasi"; "sistem"; "air"] "air").
  apply (bool_decide_unpack _). vm_compute. exact I.
Defined.

Lemma score_ignores_query_order_witness :
  (calculate_relevance process_text small_model ["irigasi"; "sistem"]
     "sistem irigasi otomatis").1
  = (calculate_relevance process_text small_model ["sistem"; "irigasi"]
       "sistem irigasi otomatis").1
  ∧ (calculate_relevance process_text small_model ["irigasi"; "sistem"]
       "sistem irigasi otomatis").2
    ≡ₚ (calculate_relevance process_text small_model ["sistem"; "irigasi"]
          "sistem irigasi otomatis").2.
Proof.
  apply (score_ignores_query_order process_text small_model
           ["irigasi"; "sistem"] ["sistem"; "irigasi"] "sistem irigasi otomatis").
  apply Permutation_swap.
Defined.

Lemma score_reads_snippet_as_set_witness :
  calculate_relevance process_text small_model ["irigasi"; "sistem"]
    "sistem irigasi"
  = calculate_relevance process_text small_model ["irigasi"; "sistem"]
      "irigasi sistem irigasi".
Proof.
  apply (score_reads_snippet_as_set process_text small_model
           ["irigasi"; "sistem"] "sistem irigasi" "irigasi sistem irigasi").
  intros term.
  change (process_text "sistem irigasi") with ["sistem"; "irigasi"].
  change (process_text "irigasi sistem irigasi") with ["irigasi"; "sistem"; "irigasi"].
  rewrite !elem_of_cons, !elem_of_nil. tauto.
Defined.

Lemma no_match_scores_zero_witness :
  calculate_relevance process_text small_model ["irigasi"; "sistem"] "manajemen air"
  = (0, []).
Proof.
  apply (no_match_scores_zero process_text small_model ["irigasi"; "sistem"]
           "manajemen air").
  apply (bool_decide_unpack _). vm_compute. exact I.
Defined.

Lemma process_text_ignores_case_witness :
  process_text_with nlp "Sistem IRIGASI di Sawah"
  = process_text_with nlp "sistem irigasi DI sawah"
  ∧ process_text_with nlp "Sistem IRIGASI di Sawah" = ["sistem"; "irigasi"; "sawah"].
Proof.
  split; [|vm_compute; reflexivity].
  apply (process_text_ignores_case nlp "Sistem IRIGASI di Sawah"
           "sistem irigasi DI sawah").
  vm_compute. reflexivity.
Defined.

Lemma search_google_candidates_witness :
  judul <$> default [] (search_google serpapi "irigasi" jurnal_a) = ["Satu"; "Dua"]
  ∧ length (default [] (search_google serpapi "irigasi" jurnal_a)) ≤ 3.
Proof.
  destruct (search_google_candidates serpapi "irigasi" jurnal_a
              (PStr "Jurnal A") (PStr "https://jurnal-a.example")
              eq_refl eq_refl) as [Hclosed Hlen].
  split; [|exact Hlen]. rewrite Hclosed. vm_compute. reflexivity.
Defined.

Lemma catalog_mode_completes_witness :
  catalog_loop serpapi "irigasi" None the_catalog empty_session
  = Completed (after_sources serpapi "irigasi"
                 (catalog_sources None the_catalog) empty_session).
Proof.
  apply (catalog_mode_completes serpapi "irigasi" None the_catalog empty_session).
  apply (bool_decide_unpack _). vm_compute. exact I.
Defined.

Lemma catalog_entry_without_link_aborts_witness :
  catalog_loop serpapi "irigasi" None broken_catalog empty_session
  = Aborted (aborted_at serpapi "irigasi" []
               (<["sinta_rank" := PStr "SINTA_2"]> no_link) empty_session)
  ∧ generate process_text broken_file json_loads serpapi sort_stable irigasi
    = [Yield (EvProgress (PStr "Jurnal C") (PStr "SINTA_2"));
       Search "irigasi" (<["sinta_rank" := PStr "SINTA_2"]> no_link)].
Proof.
  split; [|vm_compute; reflexivity].
  apply (catalog_entry_without_link_aborts serpapi "irigasi" None broken_catalog
           empty_session [] (<["sinta_rank" := PStr "SINTA_2"]> no_link)
           [<["sinta_rank" := PStr "SINTA_2"]> jurnal_a]).
  - vm_compute. reflexivity.
  - constructor.
  - vm_compute. reflexivity.
Defined.

Lemma ensure_keys_only_adds_witness :
  ensure_keys url_only !! "link" = Some (PStr "https://jurnal-b.example")
  ∧ ensure_keys url_only !! "catatan" = url_only !! "catatan"
  ∧ ensure_keys (ensure_keys url_only) = ensure_keys url_only.
Proof.
  destruct (ensure_keys_only_adds url_only) as (Hkeep & Hother & Hidem).
  split; [apply Hkeep; reflexivity|]. split; [|exact Hidem].
  apply Hother. apply (bool_decide_unpack _). vm_compute. exact I.
Defined.

Lemma rank_filter_selects_at_most_one_group_witness :
  group_matches (Some " Non-Sinta ") "NON_SINTA" = true
  ∧ "NON_SINTA" = "NON_SINTA".
Proof.
  split; [reflexivity|].
  apply (rank_filter_selects_at_most_one_group " Non-Sinta " "NON_SINTA" "NON_SINTA");
    reflexivity.
Defined.

Lemma explicit_mode_ignores_rank_and_catalog_witness :
  generate process_text other_file json_loads serpapi sort_stable
    {| topic := "irigasi"; sinta_rank := Some "3";
       sources_json := Some sources_text |}
  = generate process_text one_file json_loads serpapi sort_stable irigasi_explicit.
Proof.
  apply (explicit_mode_ignores_rank_and_catalog process_text one_file json_loads
           serpapi sort_stable other_file irigasi_explicit (Some "3")).
  - reflexivity.
  - eexists. reflexivity.
  - eexists. reflexivity.
Defined.

Lemma malformed_sources_is_fatal_witness :
  generate process_text one_file json_loads serpapi sort_stable irigasi_bad
  = [Yield EvBadSources].
Proof.
  destruct (malformed_sources_is_fatal process_text one_file json_loads serpapi
              sort_stable irigasi_bad) as [Hiff Honly].
  apply Honly, Hiff. split; [eexists; reflexivity|]. split; [reflexivity|].
  intros selected. vm_compute. discriminate.
Defined.

Lemma unknown_rank_filter_ends_with_done_witness :
  generate process_text one_file json_loads serpapi sort_stable (irigasi_rank "abc")
  = [Yield EvDone]
  ∧ generate process_text one_file json_loads serpapi sort_stable (irigasi_rank " ")
    = [Yield EvDone].
Proof.
  split.
  - apply (unknown_rank_filter_ends_with_done process_text one_file json_loads
             serpapi sort_stable (irigasi_rank "abc") "abc");
      try reflexivity; [eexists; reflexivity|].
    apply (bool_decide_unpack _). vm_compute. exact I.
  - apply (unknown_rank_filter_ends_with_done process_text one_file json_loads
             serpapi sort_stable (irigasi_rank " ") " ");
      try reflexivity; [eexists; reflexivity|].
    apply (bool_decide_unpack _). vm_compute. exact I.
Defined.

Lemma explicit_mode_stream_witness :
  generate process_text one_file json_loads serpapi sort_stable irigasi_explicit
  = (explicit_sources [url_only] ≫= announce "irigasi")
    ++ [Yield (finish process_text sort_stable "irigasi"
                 (after_sources serpapi "irigasi" (explicit_sources [url_only])
                    empty_session))]
  ∧ generate process_text one_file json_loads_mixed serpapi sort_stable
      irigasi_explicit
    = explicit_sources [url_only] ≫= announce "irigasi".
Proof.
  split.
  - apply (explicit_mode_stream process_text one_file json_loads serpapi
             sort_stable irigasi_explicit [JObject url_only]).
    + eexists. reflexivity.
    + reflexivity.
    + reflexivity.
  - rewrite (explicit_mode_stream process_text one_file json_loads_mixed serpapi
               sort_stable irigasi_explicit
               [JObject url_only; JNotObject; JObject jurnal_a]).
    + cbn [forallb is_object andb objects_before]. by rewrite app_nil_r.
    + eexists. reflexivity.
    + reflexivity.
    + reflexivity.
Defined.

(** An empty entry is skipped; a URL-only entry is announced under its
    URL and the rank ["SELECTED"]. *)
Lemma explicit_source_normalization_witness :
  explicit_loop serpapi "irigasi" (JObject <$> [∅; url_only]) empty_session
  = Completed
      (session_of
         (explicit_loop serpapi "irigasi" (JObject <$> [∅; url_only]) empty_session))
  ∧ trace
      (session_of
         (explicit_loop serpapi "irigasi" (JObject <$> [∅; url_only]) empty_session))
    = [Yield (EvProgress (PStr "https://jurnal-b.example") (PStr "SELECTED"));
       Search "irigasi" (ensure_keys url_only);
       Sleep].
Proof.
  destruct (explicit_source_normalization serpapi "irigasi" [∅; url_only]
              empty_session) as (Hdone & Htrace & _).
  split; [exact Hdone|]. rewrite Htrace. vm_compute. reflexivity.
Defined.

(** C8 does not hold as stated: an entry with a URL and an empty name
    has no name, yet it is announced and fetched under the empty name,
    not under its URL; an entry whose rank is [null] has no rank label,
    yet it is announced under [None], not under ["SELECTED"]. *)
Lemma empty_name_is_not_defaulted :
  get_falsy empty_name "nama_jurnal" = true
  ∧ empty_name !! "link" = Some (PStr "https://jurnal-b.example")
  ∧ trace (session_of
             (explicit_loop serpapi "irigasi" [JObject empty_name] empty_session))
    = [Yield (EvProgress (PStr "") (PStr "SELECTED"));
       Search "irigasi" (ensure_keys empty_name);
       Sleep]
  ∧ ensure_keys empty_name !! "nama_jurnal" = Some (PStr "")
  ∧ get_falsy null_rank "sinta_rank" = true
  ∧ trace (session_of
             (explicit_loop serpapi "irigasi" [JObject null_rank] empty_session))
    = [Yield (EvProgress (PStr "Jurnal D") PNone);
       Search "irigasi" (ensure_keys null_rank);
       Sleep]
  ∧ ensure_keys null_rank !! "sinta_rank" = Some PNone.
Proof. repeat split; vm_compute; reflexivity. Qed.

Lemma journals_lists_known_groups_in_order_witness :
  journals listing_file
  = Listed [("NON_SINTA", JGroup []);
            ("SINTA_2", JGroup [jurnal_a]);
            ("catatan", JText "diperbarui")]
  ∧ journals null_file = NotFound.
Proof.
  destruct (journals_lists_known_groups_in_order listing_file) as [_ Hlisted].
  destruct (journals_lists_known_groups_in_order null_file) as [Hnull _].
  split.
  - rewrite (Hlisted the_listing) by reflexivity. vm_compute. reflexivity.
  - apply Hnull. by left.
Defined.

Lemma journals_lists_nothing_else_witness :
  group_selected None "SINTA_7" = true
  ∧ "SINTA_7" ∉ (journals_result the_listing).*1.
Proof.
  destruct (journals_lists_nothing_else the_listing) as (_ & _ & Hleft).
  apply Hleft; [reflexivity|].
  apply (bool_decide_unpack _). vm_compute. exact I.
Defined.

End DemoRuns.
